(** * PropertyBot frontend: a shallow embedding of the chat widget and its API client

    Embedded sources:
    - [frontend/src/components/ChatWidget.tsx]  ([formatMessage],
      [handleSendMessage], the [useEffect] hook, the [ApiResponse] interface)
    - the API client module ([chatWithAgent], [mockChatWithAgent])
    - the types module ([ChatMessage], [ApiResponse])

    The retriever and the orchestrator of the backend are not among the
    sources; module [Backend] follows their specification.

    JavaScript strings are modelled by [string]: a sequence of code units,
    here the code units U+0000..U+00FF.  On that range [trim], [\s] and
    [toLowerCase] are given in full. *)

From Stdlib Require Import String Ascii List ZArith QArith Bool Lia Arith DecimalString.
Import ListNotations.
Local Close Scope Q_scope.
Local Open Scope string_scope.
Set Warnings "-register-all".

(** ** JavaScript string primitives *)

Module JsString.

(** The double quote character, U+0022. *)
Definition dquote : ascii := "034"%char.

(** ECMAScript [WhiteSpace] and [LineTerminator] code units below U+0100:
    TAB, LF, VT, FF, CR, SP and NBSP.  This is the class of [\s] and the
    class stripped by [String.prototype.trim]. *)
Definition isSpace (c : ascii) : bool :=
  let n := nat_of_ascii c in
  (((9 <=? n) && (n <=? 13)) || (n =? 32) || (n =? 160))%nat.

Fixpoint trimStart (s : string) : string :=
  match s with
  | String c s' => if isSpace c then trimStart s' else s
  | EmptyString => EmptyString
  end.

(** [trimEnd] keeps a character when it is not white space or when
    something survives after it. *)
Fixpoint trimEnd (s : string) : string :=
  match s with
  | String c s' =>
      match trimEnd s' with
      | EmptyString => if isSpace c then EmptyString else String c EmptyString
      | t => String c t
      end
  | EmptyString => EmptyString
  end.

(** [String.prototype.trim] *)
Definition trim (s : string) : string := trimEnd (trimStart s).

(** [s] is empty or consists only of white space. *)
Fixpoint blank (s : string) : bool :=
  match s with
  | String c s' => isSpace c && blank s'
  | EmptyString => true
  end.

(** [String.prototype.toLowerCase] on one code unit: A-Z, and the
    Latin-1 capitals U+00C0..U+00DE except the multiplication sign
    U+00D7, move up by 32. *)
Definition lowerChar (c : ascii) : ascii :=
  let n := nat_of_ascii c in
  if (((65 <=? n) && (n <=? 90))
      || ((192 <=? n) && (n <=? 222) && negb (n =? 215)))%nat
  then ascii_of_nat (n + 32) else c.

Fixpoint toLowerCase (s : string) : string :=
  match s with
  | String c s' => String (lowerChar c) (toLowerCase s')
  | EmptyString => EmptyString
  end.

(** [startsWith lit s] is [s.startsWith(lit)]. *)
Fixpoint startsWith (lit s : string) : bool :=
  match lit, s with
  | EmptyString, _ => true
  | String a lit', String b s' => Ascii.eqb a b && startsWith lit' s'
  | String _ _, EmptyString => false
  end.

(** [String.prototype.includes]: [includes needle hay] is
    [hay.includes(needle)], a match of [needle] at some position. *)
Fixpoint includes (needle hay : string) : bool :=
  startsWith needle hay
  || match hay with
     | String _ hay' => includes needle hay'
     | EmptyString => false
     end.

(** Membership of one code unit. *)
Fixpoint hasChar (c : ascii) (s : string) : bool :=
  match s with
  | String d s' => Ascii.eqb c d || hasChar c s'
  | EmptyString => false
  end.

(** JavaScript truthiness of a string: only the empty string is falsy. *)
Definition truthy (s : string) : bool :=
  match s with EmptyString => false | _ => true end.

End JsString.

(** ** Global regular-expression replacement *)

Module Regex.
Import JsString.

(** Longest prefix of [s] whose characters satisfy [p], and what follows:
    a greedy character class under [*]. *)
Fixpoint span (p : ascii -> bool) (s : string) : string * string :=
  match s with
  | String c s' =>
      if p c then let (a, b) := span p s' in (String c a, b)
      else (EmptyString, s)
  | EmptyString => (EmptyString, EmptyString)
  end.

(** A greedy character class under [+]: the run must not be empty. *)
Definition plus (p : ascii -> bool) (s : string) : option (string * string) :=
  match span p s with
  | (EmptyString, _) => None
  | r => Some r
  end.

(** [strip lit s] matches the literal [lit] at the front of [s]. *)
Fixpoint strip (lit s : string) : option string :=
  match lit, s with
  | EmptyString, _ => Some s
  | String a lit', String b s' =>
      if Ascii.eqb a b then strip lit' s' else None
  | String _ _, EmptyString => None
  end.

(** The negated one-character class [[^c]]. *)
Definition isNot (c : ascii) : ascii -> bool := fun d => negb (Ascii.eqb d c).

(** A match anchored at the head of the subject: the two capture groups
    and the rest of the subject after the match. *)
Definition matcher := string -> option (string * string * string).

Notation "x <- e ; k" :=
  (match e with Some x => k | None => None end)
    (at level 61, e at next level, k at level 200, right associativity,
     only parsing).
Notation "' ( x , y ) <- e ; k" :=
  (match e with Some (x, y) => k | None => None end)
    (at level 61, x name, y name, e at next level, k at level 200,
     right associativity, only parsing).

(** [/\[([^\]]+)\]\(([^)]+)\)/] anchored at the head of [s].  Each
    greedy class is followed by the one character it excludes, so the
    only run that can succeed is the longest one: a shorter run is
    followed by a character of the class, which the literal rejects. *)
Definition md_link : matcher := fun s =>
  s1 <- strip "[" s ;
  '(text, s2) <- plus (isNot "]") s1 ;
  s3 <- strip "](" s2 ;
  '(url, s4) <- plus (isNot ")") s3 ;
  rest <- strip ")" s4 ;
  Some (text, url, rest).

Definition href_eq_quote : string := "href=" ++ String dquote EmptyString.

(** [/<a\s+href=Q([^Q]+)Q[^>]*>([^<]+)<\/a>/], where Q stands for the
    double quote, anchored at the head of [s]; the groups are (url, text).
    [\s+] is followed by [h], which is not white space, and each class by
    the character it excludes, so again only the longest runs can
    succeed. *)
Definition html_anchor : matcher := fun s =>
  s1 <- strip "<a" s ;
  '(_, s2) <- plus isSpace s1 ;
  s3 <- strip href_eq_quote s2 ;
  '(url, s4) <- plus (isNot dquote) s3 ;
  s5 <- strip (String dquote EmptyString) s4 ;
  s6 <- strip ">" (snd (span (isNot ">") s5)) ;
  '(text, s7) <- plus (isNot "<") s6 ;
  rest <- strip "</a>" s7 ;
  Some (url, text, rest).

(** Every match consumes at least one character. *)
Definition shrinking (m : matcher) : Prop :=
  forall s g1 g2 rest,
    m s = Some (g1, g2, rest) -> String.length rest < String.length s.

(** The pieces a global scan cuts the subject into. *)
Inductive token :=
| Lit (c : ascii)
| Hit (g1 g2 : string).

(** One left-to-right pass of a [/g] regex: try the match at the current
    position; on success emit the groups and resume after the match, else
    keep one character and move on.  Every match consumes at least one
    character, so [length s] steps always suffice ([scan_fuel]). *)
Fixpoint scan (m : matcher) (fuel : nat) (s : string) : list token :=
  match fuel, s with
  | S fuel', String c s' =>
      match m s with
      | Some (g1, g2, rest) => Hit g1 g2 :: scan m fuel' rest
      | None => Lit c :: scan m fuel' s'
      end
  | _, _ => []
  end.

Fixpoint render (f : string -> string -> string) (ts : list token) : string :=
  match ts with
  | Lit c :: ts' => String c (render f ts')
  | Hit g1 g2 :: ts' => f g1 g2 ++ render f ts'
  | [] => EmptyString
  end.

(** [s.replace(re, (_, g1, g2) => f g1 g2)] for a global [re] with two
    groups. *)
Definition replace (m : matcher) (f : string -> string -> string)
           (s : string) : string :=
  render f (scan m (String.length s) s).

(** The capture groups of all matches, in order. *)
Fixpoint hits (ts : list token) : list (string * string) :=
  match ts with
  | Lit _ :: ts' => hits ts'
  | Hit g1 g2 :: ts' => (g1, g2) :: hits ts'
  | [] => []
  end.

End Regex.

(** ** [formatMessage]: link rewriting *)

Module Format.
Import JsString Regex.

Definition dq : string := String dquote EmptyString.

(** The template [<a href=Q${url}Q target=Q_blankQ rel=Qnoopener noreferrerQ>${text}</a>],
    Q being the double quote. *)
Definition anchor (text url : string) : string :=
  "<a href=" ++ dq ++ url ++ dq
    ++ " target=" ++ dq ++ "_blank" ++ dq
    ++ " rel=" ++ dq ++ "noopener noreferrer" ++ dq ++ ">"
    ++ text ++ "</a>".

(** [`[${text}](${url})`]; the second regex captures (url, text). *)
Definition markdown (url text : string) : string :=
  "[" ++ text ++ "](" ++ url ++ ")".

Definition markdownContent (content : string) : string :=
  replace md_link anchor content.

(** The string [formatMessage] hands to the markdown renderer. *)
Definition finalContent (content : string) : string :=
  replace html_anchor markdown (markdownContent content).

(** The markdown links of [content], as (text, url). *)
Definition links (content : string) : list (string * string) :=
  hits (scan md_link (String.length content) content).

(** [s] starts with an opening anchor tag: [<a] and a white-space
    character. *)
Definition opensAnchor (s : string) : bool :=
  match s with
  | String c0 (String c1 (String c2 _)) =>
      Ascii.eqb "<" c0 && Ascii.eqb "a" c1 && isSpace c2
  | _ => false
  end.

(** [content] holds an opening anchor tag somewhere. *)
Fixpoint hasAnchor (content : string) : bool :=
  opensAnchor content
  || match content with
     | String _ rest => hasAnchor rest
     | EmptyString => false
     end.

(** An anchor element as a page may hold it: [<a], white space, the
    [href] in double quotes, further attributes, the text, [</a>]. *)
Definition anchor_tag (ws url attrs text : string) : string :=
  "<a" ++ ws ++ "href=" ++ dq ++ url ++ dq ++ attrs ++ ">" ++ text ++ "</a>".

(** A link the second regex can read back: no [<] in its text, no double
    quote in its url. *)
Definition plainLink (l : string * string) : bool :=
  negb (hasChar "<" (fst l)) && negb (hasChar dquote (snd l)).

End Format.


(** ** JSON values and property reads *)

Module Json.

(** A parsed JSON document.  Numbers are carried as integers: nothing
    here computes with them. *)
Inductive value :=
| JNull
| JBool (b : bool)
| JNumber (n : Z)
| JString (s : string)
| JArray (items : list value)
| JObject (fields : list (string * value)).

(** A JavaScript value as far as the widget handles them: [undefined] or
    a JSON value. *)
Inductive jsval :=
| undefined
| json (v : value).

(** The own property [k] of an object with the given fields; a later
    binding of a key overrides an earlier one, as in [JSON.parse]. *)
Fixpoint lookup (k : string) (fields : list (string * value)) : option value :=
  match fields with
  | [] => None
  | (k', v) :: rest =>
      match lookup k rest with
      | Some w => Some w
      | None => if String.eqb k k' then Some v else None
      end
  end.

(** The property read [d.k] for a data key [k] (one that no prototype
    defines): [None] when the read throws a TypeError, which it does on
    [null]; [undefined] on primitives, arrays and objects without the
    key. *)
Definition get (k : string) (d : value) : option jsval :=
  match d with
  | JNull => None
  | JObject fields =>
      match lookup k fields with
      | Some v => Some (json v)
      | None => Some undefined
      end
  | _ => Some undefined
  end.

End Json.

(** ** The types module and the widget's interfaces *)

Module Types.
Import Json.

Inductive Role := user | assistant.

(** [interface ChatMessage]; [timestamp] is the epoch time of the
    [Date]. *)
Record ChatMessage := {
  id : string;
  content : jsval;
  role : Role;
  timestamp : Z
}.

(** [interface ApiResponse] of the types module, the result type of the
    client functions.  [message] holds whatever [data.response] was. *)
Record ApiResponse := {
  message : jsval;
  success : bool
}.

(** TypeScript types, as far as the widget's interfaces use them. *)
Inductive tsType :=
| TString
| TNumber
| TBoolean
| TUnknown
| TUnion (a b : tsType)
| TArray (elem : tsType)
| TInterface (extends : option tsType) (members : list (string * bool * tsType))
| TRecord (key val : tsType).

(** A member is (name, optional?, type). *)
Definition required (name : string) (t : tsType) := (name, false, t).
Definition optional (name : string) (t : tsType) := (name, true, t).

(** [interface Property] of ChatWidget.tsx *)
Definition Property : tsType :=
  TInterface None
    [ required "id" TString;
      required "name" TString;
      required "price" (TUnion TNumber TString);
      optional "location" TString;
      optional "description" TString;
      optional "image_url" TString ].

(** [interface AdditionalInfo extends Record<string, unknown>] *)
Definition AdditionalInfo : tsType :=
  TInterface (Some (TRecord TString TUnknown)) [ optional "summary" TString ].

(** [interface ApiResponse] of ChatWidget.tsx: the type given to the
    reply of the inquiry endpoint. *)
Definition InquiryResponse : tsType :=
  TInterface None
    [ required "response" TString;
      optional "relevant_properties" (TArray Property);
      optional "web_search_data" AdditionalInfo;
      optional "additional_info"
        (TInterface None [ optional "web_search_conducted" TBoolean ]) ].

(** The declaration of member [name] in an interface: (optional?, type). *)
Fixpoint find_member (name : string) (ms : list (string * bool * tsType))
  : option (bool * tsType) :=
  match ms with
  | [] => None
  | (n, opt, t) :: rest =>
      if String.eqb name n then Some (opt, t) else find_member name rest
  end.

Definition member (name : string) (t : tsType) : option (bool * tsType) :=
  match t with
  | TInterface _ ms => find_member name ms
  | _ => None
  end.

End Types.

(** ** The runtime: exceptions, the network, the console, React state *)

Module Runtime.
Import Json Types.

(** Thrown values. *)
Inductive JsError :=
| Error (msg : string)          (* [new Error(msg)] *)
| TypeError (msg : string)      (* a failed fetch, a property read on null *)
| SyntaxError (msg : string).   (* [response.json()] on a body that is not JSON *)

(** What [fetch] was called with; [body] is the value given to
    [JSON.stringify]. *)
Record Request := {
  url : string;
  method : string;
  headers : list (string * string);
  body : value
}.

(** An HTTP response; [payload] is [None] when the body is not JSON. *)
Record Response := {
  status : N;
  statusText : string;
  payload : option value
}.

(** [response.ok]: the status is in the range 200-299. *)
Definition ok (r : Response) : bool :=
  ((200 <=? status r) && (status r <=? 299))%N.

(** How the promise returned by [fetch] settles. *)
Inductive FetchOutcome :=
| Rejected (e : JsError)
| Resolved (r : Response).

Inductive LogEntry :=
| console_log_entry (label : string) (data : value)
| console_error_entry (label : string) (error : JsError).

Record Toast := {
  title : string;
  description : string;
  variant : string
}.

(** The state the code acts on: the four [useState] cells of the widget,
    the handlers of it suspended at [await fetch], and the outside world
    (requests issued, toasts shown, console output). *)
Record World := {
  messages : list ChatMessage;
  inputValue : string;
  isLoading : bool;
  threadId : option string;
  awaiting : nat;
  requests : list Request;
  toasts : list Toast;
  console : list LogEntry
}.

(** A JavaScript computation: it changes the world and either returns
    or throws.  State changes made before a throw persist. *)
Definition Js (A : Type) : Type := World -> (JsError + A) * World.

Definition ret {A} (a : A) : Js A := fun w => (inr a, w).

Definition bind {A B} (c : Js A) (k : A -> Js B) : Js B :=
  fun w =>
    match c w with
    | (inr a, w') => k a w'
    | (inl e, w') => (inl e, w')
    end.

Definition throw {A} (e : JsError) : Js A := fun w => (inl e, w).

(** [try { c } catch (error) { h error }] *)
Definition try_catch {A} (c : Js A) (h : JsError -> Js A) : Js A :=
  fun w =>
    match c w with
    | (inr a, w') => (inr a, w')
    | (inl e, w') => h e w'
    end.

(** [try { c } finally { f }]: [f] runs on both exits; a throw of [c]
    is rethrown unless [f] throws itself. *)
Definition try_finally {A} (c : Js A) (f : Js unit) : Js A :=
  fun w =>
    match c w with
    | (r, w') =>
        match f w' with
        | (inr _, w'') => (r, w'')
        | (inl e, w'') => (inl e, w'')
        end
    end.

Definition read {A} (field : World -> A) : Js A := fun w => (inr (field w), w).

Definition update (f : World -> World) : Js unit := fun w => (inr tt, f w).

Declare Scope js_scope.
Delimit Scope js_scope with js.
Notation "x <- c ;; k" := (bind c (fun x => k))
  (at level 61, c at next level, right associativity) : js_scope.
Notation "c ;; k" := (bind c (fun _ => k))
  (at level 61, right associativity) : js_scope.

(** The state setters; [setMessages] takes an updater function, which
    React applies to the latest state. *)
Definition setMessages (f : list ChatMessage -> list ChatMessage) : Js unit :=
  update (fun w =>
    {| messages := f (messages w); inputValue := inputValue w;
       isLoading := isLoading w; threadId := threadId w;
       awaiting := awaiting w; requests := requests w;
       toasts := toasts w; console := console w |}).

Definition setInputValue (v : string) : Js unit :=
  update (fun w =>
    {| messages := messages w; inputValue := v;
       isLoading := isLoading w; threadId := threadId w;
       awaiting := awaiting w; requests := requests w;
       toasts := toasts w; console := console w |}).

Definition setIsLoading (b : bool) : Js unit :=
  update (fun w =>
    {| messages := messages w; inputValue := inputValue w;
       isLoading := b; threadId := threadId w;
       awaiting := awaiting w; requests := requests w;
       toasts := toasts w; console := console w |}).

Definition setThreadId (t : option string) : Js unit :=
  update (fun w =>
    {| messages := messages w; inputValue := inputValue w;
       isLoading := isLoading w; threadId := t;
       awaiting := awaiting w; requests := requests w;
       toasts := toasts w; console := console w |}).

Definition setAwaiting (n : nat) : Js unit :=
  update (fun w =>
    {| messages := messages w; inputValue := inputValue w;
       isLoading := isLoading w; threadId := threadId w;
       awaiting := n; requests := requests w;
       toasts := toasts w; console := console w |}).

(** The call [fetch(url, init)] up to the promise: the request leaves. *)
Definition issue (r : Request) : Js unit :=
  update (fun w =>
    {| messages := messages w; inputValue := inputValue w;
       isLoading := isLoading w; threadId := threadId w;
       awaiting := awaiting w; requests := requests w ++ [r];
       toasts := toasts w; console := console w |}).

Definition toast (t : Toast) : Js unit :=
  update (fun w =>
    {| messages := messages w; inputValue := inputValue w;
       isLoading := isLoading w; threadId := threadId w;
       awaiting := awaiting w; requests := requests w;
       toasts := toasts w ++ [t]; console := console w |}).

Definition print (l : LogEntry) : Js unit :=
  update (fun w =>
    {| messages := messages w; inputValue := inputValue w;
       isLoading := isLoading w; threadId := threadId w;
       awaiting := awaiting w; requests := requests w;
       toasts := toasts w; console := console w ++ [l] |}).

Definition console_log (label : string) (data : value) : Js unit :=
  print (console_log_entry label data).

Definition console_error (label : string) (error : JsError) : Js unit :=
  print (console_error_entry label error).

(** [await] on the promise of [fetch]. *)
Definition await (o : FetchOutcome) : Js Response :=
  match o with
  | Rejected e => throw e
  | Resolved r => ret r
  end.

(** [await response.json()] *)
Definition response_json (r : Response) : Js value :=
  match payload r with
  | Some v => ret v
  | None => throw (SyntaxError "Unexpected token in JSON")
  end.

(** The read [d.k] as a computation. *)
Definition prop (k : string) (d : value) : Js jsval :=
  match get k d with
  | Some v => ret v
  | None => throw (TypeError "Cannot read properties of null")
  end.

(** What the [try] blocks of the widget and of the client read from a
    reply: [data.response] of an ok reply with a JSON body, nothing when
    one of their steps throws. *)
Definition response_of (reply : FetchOutcome) : option jsval :=
  match reply with
  | Resolved r =>
      if ok r then
        match payload r with
        | Some d => get "response" d
        | None => None
        end
      else None
  | Rejected _ => None
  end.

(** [{ method: POST, headers: { Content-Type: application/json },
      body: JSON.stringify(v) }] sent to [u]. *)
Definition post_json (u : string) (v : value) : Request :=
  {| url := u; method := "POST";
     headers := [("Content-Type", "application/json")];
     body := v |}.

(** A number in a template literal. *)
Definition show (n : N) : string :=
  DecimalString.NilZero.string_of_uint (N.to_uint n).

End Runtime.

(** ** The API client module: [chatWithAgent], [mockChatWithAgent] *)

Module Client.
Import JsString Json Types Runtime.
Local Open Scope js_scope.

Definition API_URL : string := "http://localhost:8000".

(** The text returned when anything in the [try] block throws. *)
Definition fallback : string :=
  "Sorry, I'm having trouble connecting to the server right now. Please try again later.".

(** The request [chatWithAgent] sends. *)
Definition chat_request (message : string) : Request :=
  post_json (API_URL ++ "/chat") (JObject [("message", JString message)]).

(** [chatWithAgent(message)]; [reply] is how the network settles the
    fetch. *)
Definition chatWithAgent (message : string) (reply : FetchOutcome)
  : Js ApiResponse :=
  try_catch
    (issue (chat_request message) ;;
     response <- await reply ;;
     if negb (ok response)
     then throw (Error ("Error: " ++ statusText response))
     else
       data <- response_json response ;;
       r <- prop "response" data ;;
       ret {| message := r; success := true |})
    (fun error =>
       console_error "Error chatting with agent:" error ;;
       ret {| message := json (JString fallback); success := false |}).

(** The world after [chatWithAgent] sent its request, and after it
    logged an error. *)
Definition sent (message : string) (w : World) : World :=
  snd (issue (chat_request message) w).

Definition logged (e : JsError) (w : World) : World :=
  snd (console_error "Error chatting with agent:" e w).

Definition greeting : string :=
  "Hello! I'm PropertyBot. How can I help you with your property search today?".
Definition about_properties : string :=
  "I can help you find properties based on location, price, number of bedrooms, and more. What are your requirements?".
Definition about_prices : string :=
  "Properties in our database range from $150,000 to $5,000,000. What's your budget range?".
Definition about_locations : string :=
  "We have properties in downtown areas, suburbs, and rural settings. Which area are you interested in?".
Definition default_reply : string :=
  "I'm here to help with your property search. You can ask me about available properties, pricing, locations, or specific features you're looking for.".

(** The timer [await new Promise(resolve => setTimeout(resolve, ms))]
    always fires; time is not part of the world. *)
Definition sleep (ms : N) : Js unit := ret tt.

Definition said (text : string) : ApiResponse :=
  {| message := json (JString text); success := true |}.

(** [mockChatWithAgent(message)] *)
Definition mockChatWithAgent (message : string) : Js ApiResponse :=
  sleep 1000 ;;
  let lowercaseMessage := toLowerCase message in
  if includes "hello" lowercaseMessage || includes "hi" lowercaseMessage
  then ret (said greeting)
  else if includes "property" lowercaseMessage
          || includes "house" lowercaseMessage
          || includes "apartment" lowercaseMessage
  then ret (said about_properties)
  else if includes "price" lowercaseMessage
          || includes "cost" lowercaseMessage
          || includes "budget" lowercaseMessage
  then ret (said about_prices)
  else if includes "location" lowercaseMessage
          || includes "area" lowercaseMessage
          || includes "where" lowercaseMessage
  then ret (said about_locations)
  else ret (said default_reply).

(** The keyword groups as the description of the mock states them: in
    this order, each with its reply. *)
Definition keyword_groups : list (list string * string) :=
  [ (["hello"; "hi"], greeting);
    (["property"; "house"; "apartment"], about_properties);
    (["price"; "cost"; "budget"], about_prices);
    (["location"; "area"; "where"], about_locations) ].

(** The reply of the first group one of whose keywords occurs in [msg],
    the default reply when there is none. *)
Fixpoint first_match (groups : list (list string * string)) (msg : string)
  : string :=
  match groups with
  | [] => default_reply
  | (keywords, reply) :: rest =>
      if existsb (fun k => includes k msg) keywords then reply
      else first_match rest msg
  end.

End Client.

(** ** The chat widget *)

Module ChatWidget.
Import JsString Json Types Runtime.
Local Open Scope js_scope.

Definition inquiry_url : string := "http://localhost:8000/api/property/inquiry".

Definition welcome (now : Z) : ChatMessage :=
  {| id := "welcome-message";
     content := json (JString
       "Hello! I'm PropertyBot. How can I help you find your dream property today?");
     role := assistant;
     timestamp := now |}.

(** The state at mount; [now] is the time of the first render. *)
Definition initial (now : Z) : World :=
  {| messages := [welcome now]; inputValue := EmptyString;
     isLoading := false; threadId := None; awaiting := 0;
     requests := []; toasts := []; console := [] |}.

(** [!threadId] for [threadId : string | null] *)
Definition noThread (t : option string) : bool :=
  match t with
  | None => true
  | Some s => negb (truthy s)
  end.

(** The JSON form of [threadId]. *)
Definition thread_value (t : option string) : value :=
  match t with
  | None => JNull
  | Some s => JString s
  end.

(** The [useEffect] hook: [uuid] is what [uuidv4()] would return.  The
    scrolling of the message area is outside the model. *)
Definition effect (uuid : string) : Js unit :=
  t <- read threadId ;;
  if noThread t then setThreadId (Some uuid) else ret tt.

(** [onChange] of the input *)
Definition handleChange (v : string) : Js unit := setInputValue v.

Definition error_toast : Toast :=
  {| title := "Error";
     description := "Failed to connect to the property agent. Please try again.";
     variant := "destructive" |}.

(** [const userMessage] and [const botMessage] of [handleSendMessage] *)
Definition userMessage (uuid : string) (now : Z) (inputValue : string)
  : ChatMessage :=
  {| id := uuid; content := json (JString inputValue);
     role := user; timestamp := now |}.

Definition botMessage (uuid : string) (now : Z) (response_text : jsval)
  : ChatMessage :=
  {| id := uuid; content := response_text;
     role := assistant; timestamp := now |}.

(** The request [handleSendMessage] sends. *)
Definition inquiry_request (query : string) (t : option string) : Request :=
  post_json inquiry_url
    (JObject [("query", JString query); ("thread_id", thread_value t)]).

(** [handleSendMessage] up to its [await fetch(...)]: the guard, the
    user message, the two resets and the call of [fetch].  [uuid] and
    [now] are the results of [uuidv4()] and [new Date()].  [inputValue]
    and [threadId] are read once: the handler sees the values of the
    render it was created in.  The result tells whether the handler
    went on to its [await] ([true]) or returned at the guard. *)
Definition handleSendMessage_start (uuid : string) (now : Z) : Js bool :=
  inputValue <- read inputValue ;;
  threadId <- read threadId ;;
  if negb (truthy (trim inputValue)) || noThread threadId then ret false
  else
    setMessages (fun prev => (prev ++ [userMessage uuid now inputValue])%list) ;;
    setInputValue EmptyString ;;
    setIsLoading true ;;
    issue (inquiry_request inputValue threadId) ;;
    ret true.

(** [handleSendMessage] from the moment the fetch settles: the rest of
    the [try] block, with its [catch] and [finally]. *)
Definition handleSendMessage_resume (reply : FetchOutcome)
           (uuid : string) (now : Z) : Js unit :=
  try_finally
    (try_catch
       (response <- await reply ;;
        if negb (ok response)
        then throw (Error ("HTTP error! status: " ++ show (status response)))
        else
          data <- response_json response ;;
          console_log "API Response:" data ;;
          response_text <- prop "response" data ;;
          setMessages (fun prev => (prev ++ [botMessage uuid now response_text])%list))
       (fun error =>
          console_error "API Error:" error ;;
          toast error_toast))
    (setIsLoading false).

(** What the environment contributes to one call of
    [handleSendMessage]. *)
Record Turn := {
  user_uuid : string;
  user_time : Z;
  reply : FetchOutcome;
  bot_uuid : string;
  bot_time : Z
}.

(** One whole call of [handleSendMessage], the fetch settling with
    [reply t]. *)
Definition handleSendMessage (t : Turn) : Js unit :=
  awaits <- handleSendMessage_start (user_uuid t) (user_time t) ;;
  if awaits
  then handleSendMessage_resume (reply t) (bot_uuid t) (bot_time t)
  else ret tt.

(** [disabled] of the send button *)
Definition sendDisabled (w : World) : bool :=
  isLoading w || negb (truthy (trim (inputValue w))).

(** What happens to the widget: the effect hook runs, the user types,
    the user sends (button or Enter key), a pending fetch settles. *)
Inductive Event :=
| Effect (uuid : string)
| Change (value : string)
| Send (uuid : string) (now : Z)
| Settle (reply : FetchOutcome) (uuid : string) (now : Z).

(** The event loop: a handler that reaches its [await] is suspended, and
    a fetch can only settle for a suspended handler. *)
Definition handler (ev : Event) : Js unit :=
  match ev with
  | Effect uuid => effect uuid
  | Change v => handleChange v
  | Send uuid now =>
      awaits <- handleSendMessage_start uuid now ;;
      if awaits
      then n <- read awaiting ;; setAwaiting (S n)
      else ret tt
  | Settle reply uuid now =>
      n <- read awaiting ;;
      match n with
      | O => ret tt
      | S n' => setAwaiting n' ;; handleSendMessage_resume reply uuid now
      end
  end.

Definition step (w : World) (ev : Event) : World := snd (handler ev w).

Definition run (w : World) (evs : list Event) : World := fold_left step evs w.

(** [uuidv4()] returns 36 characters. *)
Definition is_uuid (s : string) : bool := Nat.eqb (String.length s) 36.

Definition event_uuid (ev : Event) : option string :=
  match ev with
  | Effect u | Send u _ | Settle _ u _ => Some u
  | Change _ => None
  end.

Definition well_formed (ev : Event) : bool :=
  match event_uuid ev with
  | Some u => is_uuid u
  | None => true
  end.

(** The contract of the inquiry endpoint on a request: a string under
    [query] and a string under [thread_id]. *)
Definition carries (r : Request) (query thread : string) : Prop :=
  get "query" (body r) = Some (json (JString query))
  /\ get "thread_id" (body r) = Some (json (JString thread)).

(** A request that goes to the inquiry endpoint and meets its
    contract. *)
Definition meets_contract (r : Request) : Prop :=
  url r = inquiry_url /\ exists query thread, carries r query thread.

(** The invariant of a session: before the thread id is assigned no
    request has left; afterwards the id is not empty and every request
    sent so far carries it. *)
Definition thread_inv (w : World) : Prop :=
  match threadId w with
  | None => requests w = []
  | Some t =>
      t <> EmptyString
      /\ forall r, In r (requests w) ->
           url r = inquiry_url /\ exists query, carries r query t
  end.

(** What the user sees of the world: the rendered state and the
    toasts. *)
Definition view (w : World)
  : list ChatMessage * string * bool * list Toast :=
  (messages w, inputValue w, isLoading w, toasts w).

(** The decoding of a reply depends on the property [k] of its body:
    there are two bodies that differ at most in [k] and are shown
    differently. *)
Definition consumes (k : string) : Prop :=
  exists (d1 d2 : value) (st : N) (txt uuid : string) (now : Z) (w : World),
    (forall k', k' <> k -> get k' d1 = get k' d2) /\
    view (snd (handleSendMessage_resume
                 (Resolved {| status := st; statusText := txt; payload := Some d1 |})
                 uuid now w))
    <> view (snd (handleSendMessage_resume
                 (Resolved {| status := st; statusText := txt; payload := Some d2 |})
                 uuid now w)).

End ChatWidget.

(** ** The widget on screen: rendering, the keyboard, the controls *)

Module Ui.
Import JsString Regex Format Json Types Runtime ChatWidget.
Local Open Scope js_scope.

(** [React.KeyboardEvent], the two properties [handleKeyDown] reads. *)
Record KeyboardEvent := {
  key : string;
  shiftKey : bool
}.

(** What a call of [handleKeyDown] did to the event, and whether the
    call of [handleSendMessage] it made went on to its [await]. *)
Record KeyResult := {
  defaultPrevented : bool;
  started : bool
}.

(** [handleKeyDown]; the promise of [handleSendMessage()] is not
    awaited. *)
Definition handleKeyDown (e : KeyboardEvent) (uuid : string) (now : Z)
  : Js KeyResult :=
  if String.eqb (key e) "Enter" && negb (shiftKey e) then
    awaits <- handleSendMessage_start uuid now ;;
    ret {| defaultPrevented := true; started := awaits |}
  else ret {| defaultPrevented := false; started := false |}.

(** [formatMessage(content)] on the value a message holds: the string
    given to the markdown renderer.  Only a string has a [replace]
    method: on [undefined] and [null] the read of [content.replace]
    throws a TypeError, on any other value the call does. *)
Definition formatMessage (content : jsval) : JsError + string :=
  match content with
  | json (JString s) => inr (finalContent s)
  | undefined => inl (TypeError "Cannot read properties of undefined")
  | json JNull => inl (TypeError "Cannot read properties of null")
  | _ => inl (TypeError "content.replace is not a function")
  end.

(** The inside of a chat bubble: the paragraph with [message.content]
    as its child, or the markdown element [formatMessage] returns. *)
Inductive Body :=
| Paragraph (child : jsval)
| Markdown (children : string).

(** One element of [messages.map(...)]: the [key], the two class
    strings and the body. *)
Record Bubble := {
  bubble_key : string;
  row_class : string;
  bubble_class : string;
  inside : Body
}.

Definition is_user (m : ChatMessage) : bool :=
  match role m with user => true | assistant => false end.

(** The callback of [messages.map]. *)
Definition renderMessage (m : ChatMessage) : JsError + Bubble :=
  let row := "flex " ++ (if is_user m then "justify-end" else "justify-start") in
  let bubble := "chat-bubble max-w-[85%] "
                ++ (if is_user m then "bg-primary text-white rounded-lg p-3"
                    else "bg-gray-100 rounded-lg p-4") in
  if is_user m then
    inr {| bubble_key := id m; row_class := row; bubble_class := bubble;
           inside := Paragraph (content m) |}
  else
    match formatMessage (content m) with
    | inr text => inr {| bubble_key := id m; row_class := row;
                         bubble_class := bubble; inside := Markdown text |}
    | inl e => inl e
    end.

(** [messages.map(...)]: the elements in order; the first throw ends
    the rendering. *)
Fixpoint renderMessages (ms : list ChatMessage) : JsError + list Bubble :=
  match ms with
  | [] => inr []
  | m :: rest =>
      match renderMessage m with
      | inl e => inl e
      | inr b =>
          match renderMessages rest with
          | inl e => inl e
          | inr bs => inr (b :: bs)
          end
      end
  end.

Inductive Icon := Loader2 | SendIcon.

(** What the component returns, as far as it depends on the state: the
    bubbles, the Thinking indicator, the input and the button. *)
Record Screen := {
  bubbles : list Bubble;
  thinking : bool;
  input_value : string;
  input_disabled : bool;
  button_disabled : bool;
  button_icon : Icon
}.

(** The [return (...)] of [ChatWidget]. *)
Definition render (w : World) : JsError + Screen :=
  match renderMessages (messages w) with
  | inl e => inl e
  | inr bs =>
      inr {| bubbles := bs;
             thinking := isLoading w;
             input_value := inputValue w;
             input_disabled := isLoading w;
             button_disabled := sendDisabled w;
             button_icon := if isLoading w then Loader2 else SendIcon |}
  end.

(** What reaches the component from outside: React runs the effect
    after a render, the user types, presses a key in the input, clicks
    the button, a pending fetch settles. *)
Inductive Action :=
| Rendered (uuid : string)
| Typed (value : string)
| KeyDown (e : KeyboardEvent) (uuid : string) (now : Z)
| Clicked (uuid : string) (now : Z)
| Settled (reply : FetchOutcome) (uuid : string) (now : Z).

(** A handler that reached its [await] is suspended. *)
Definition suspend (awaits : bool) : Js unit :=
  if awaits then n <- read awaiting ;; setAwaiting (S n) else ret tt.

(** The browser delivers no event to a disabled control: the input is
    disabled while [isLoading], the button while [isLoading] or the
    input is blank. *)
Definition dispatch (a : Action) : Js unit :=
  match a with
  | Rendered uuid => effect uuid
  | Typed v =>
      disabled <- read isLoading ;;
      if disabled then ret tt else handleChange v
  | KeyDown e uuid now =>
      disabled <- read isLoading ;;
      if disabled then ret tt
      else r <- handleKeyDown e uuid now ;; suspend (started r)
  | Clicked uuid now =>
      disabled <- read sendDisabled ;;
      if disabled then ret tt
      else awaits <- handleSendMessage_start uuid now ;; suspend awaits
  | Settled reply uuid now => handler (Settle reply uuid now)
  end.

Definition act (w : World) (a : Action) : World := snd (dispatch a w).

Definition session (w : World) (actions : list Action) : World :=
  fold_left act actions w.

(** After a turn of role [last]: no assistant turn directly follows an
    assistant turn. *)
Fixpoint answers (last : Role) (ms : list ChatMessage) : bool :=
  match ms with
  | [] => true
  | m :: rest =>
      match role m, last with
      | assistant, assistant => false
      | _, _ => answers (role m) rest
      end
  end.

(** No two assistant turns stand next to each other. *)
Definition no_double_reply (ms : list ChatMessage) : bool :=
  match ms with
  | [] => true
  | m :: rest => answers (role m) rest
  end.

(** The role of the last turn of [ms], [last] when there is none. *)
Fixpoint final_role (last : Role) (ms : list ChatMessage) : Role :=
  match ms with
  | [] => last
  | m :: rest => final_role (role m) rest
  end.

Definition last_role (ms : list ChatMessage) : option Role :=
  match ms with
  | [] => None
  | m :: rest => Some (final_role (role m) rest)
  end.

(** A send event. *)
Definition is_send (ev : Event) : bool :=
  match ev with Send _ _ => true | _ => false end.

(** The texts sent as [query], in order. *)
Definition queries (rs : list Request) : list (option jsval) :=
  map (fun r => get "query" (body r)) rs.

(** The contents of the user turns, in order. *)
Definition user_texts (ms : list ChatMessage) : list (option jsval) :=
  map (fun m => Some (content m)) (filter is_user ms).

(** The children of the paragraphs on screen, in order. *)
Fixpoint paragraphs (bs : list Bubble) : list (option jsval) :=
  match bs with
  | [] => []
  | b :: rest =>
      match inside b with
      | Paragraph v => Some v :: paragraphs rest
      | Markdown _ => paragraphs rest
      end
  end.

Definition assistant_turns (ms : list ChatMessage) : nat :=
  List.length (filter (fun m => negb (is_user m)) ms).

(** [v] is a string. *)
Definition is_string (v : jsval) : bool :=
  match v with json (JString _) => true | _ => false end.

(** A reply whose [response], if it can be read, is a string, as the
    interface [ApiResponse] of the widget types it. *)
Definition typed (reply : FetchOutcome) : bool :=
  match response_of reply with
  | Some v => is_string v
  | None => true
  end.

Definition typed_reply (a : Action) : bool :=
  match a with
  | Settled reply _ _ => typed reply
  | _ => true
  end.

(** The event of the widget an action amounts to, none when the control
    is disabled or the key is not a plain Enter. *)
Definition event_of (w : World) (a : Action) : option Event :=
  match a with
  | Rendered uuid => Some (Effect uuid)
  | Typed v => if isLoading w then None else Some (Change v)
  | KeyDown e uuid now =>
      if isLoading w then None
      else if String.eqb (key e) "Enter" && negb (shiftKey e)
           then Some (Send uuid now) else None
  | Clicked uuid now =>
      if sendDisabled w then None else Some (Send uuid now)
  | Settled reply uuid now => Some (Settle reply uuid now)
  end.

(** One request is in flight while the widget is loading and none
    otherwise; no two assistant turns stand next to each other; while
    the widget is loading the last turn is the user's. *)
Definition in_flight (w : World) : Prop :=
  awaiting w = (if isLoading w then 1 else 0)
  /\ messages w <> []
  /\ no_double_reply (messages w) = true
  /\ (isLoading w = true -> last_role (messages w) = Some user).

(** Requests sent, against what became of them: an assistant turn (the
    welcome is one more), an error toast, or still awaited. *)
Definition settled (w : World) : Prop :=
  List.length (requests w) + 1
  = assistant_turns (messages w) + List.length (toasts w) + awaiting w.

(** The assistant turns hold strings. *)
Definition replies_are_strings (ms : list ChatMessage) : bool :=
  forallb (fun m => is_user m || is_string (content m)) ms.

End Ui.

(** ** The orchestration core

    The retriever and the orchestrator are not among the embedded sources;
    this module follows the specification of these two components
    (sections 3, 4.2, 4.3, 4.4 and 4.5). *)

Module Backend.
Import JsString.

(** Modelled from the spec: the [QueryIntent] record of section 3, with
    the flag for a need the corpus schema cannot answer (section 4.3). *)
Record QueryIntent := {
  raw_text : string;
  property_type : option string;
  location : option string;
  price_min : option Z;
  price_max : option Z;
  bedrooms : option Z;
  amenities : list string;
  reference_property_id : option string;
  confidence : Q;
  out_of_schema : bool
}.

(** Modelled from the spec: the [PropertyRecord] of section 3. *)
Record PropertyRecord := {
  id : string;
  name : string;
  price : Z;
  place : string;
  rooms : Z;
  features : list string;
  description : string;
  embedding_ref : string
}.

(** Modelled from the spec: a scored candidate, an element of
    [RetrievalResult.matches]. *)
Definition candidate : Type := PropertyRecord * Q.

(** Modelled from the spec: the [RetrievalResult] of section 3. *)
Record RetrievalResult := {
  matches : list candidate;
  hit : bool
}.

(** Modelled from the spec: the [WebEvidence] of section 3. *)
Record WebEvidence := {
  source_url : string;
  snippet : string;
  extracted_facts : list (string * string);
  fetched_at : Z
}.

(** Modelled from the spec: the [evidence_used] flags of an
    [AgentResponse]. *)
Record EvidenceUsed := {
  retrieval : bool;
  web_search : bool
}.

(** Modelled from the spec: the [AgentResponse] of section 3. *)
Record AgentResponse := {
  text : string;
  cited_properties : list string;
  evidence_used : EvidenceUsed
}.

(** Modelled from the spec: a price inside the band the intent gives,
    and a field equal to the one the intent pins. *)
Definition within (lo hi : option Z) (x : Z) : bool :=
  match lo with Some l => (l <=? x)%Z | None => true end
  && match hi with Some h => (x <=? h)%Z | None => true end.

Definition agrees {A} (eqb : A -> A -> bool) (want : option A) (x : A) : bool :=
  match want with Some w => eqb w x | None => true end.

(** Modelled from the spec: the structured filters of section 4.2 (price
    range, bedroom count, location match). *)
Definition passes (i : QueryIntent) (c : candidate) : bool :=
  within (price_min i) (price_max i) (price (fst c))
  && agrees Z.eqb (bedrooms i) (rooms (fst c))
  && agrees String.eqb (location i) (place (fst c)).

(** Modelled from the spec: one step of the ranking; [c] goes in front
    of the first candidate that does not score strictly higher. *)
Fixpoint insert (c : candidate) (l : list candidate) : list candidate :=
  match l with
  | [] => [c]
  | d :: l' =>
      if Qle_bool (snd d) (snd c) then c :: d :: l' else d :: insert c l'
  end.

(** Modelled from the spec: the ranking of section 4.2, by descending
    score, candidates of equal score staying in corpus insertion order
    (the order of the input). *)
Definition rank (l : list candidate) : list candidate :=
  fold_right insert [] l.

(** Modelled from the spec: the top-1 filtered candidate of section
    4.2. *)
Definition top1 (i : QueryIntent) (corpus : list candidate) : option candidate :=
  hd_error (rank (filter (passes i) corpus)).

(** Modelled from the spec: [retrieve(intent, k)] of section 4.2 over the
    scored candidates the corpus collaborator returns: filter, rank, keep
    the top [k]; [hit] compares the top-1 filtered score with the
    threshold. *)
Definition retrieve (relevance_threshold : Q) (i : QueryIntent) (k : nat)
           (corpus : list candidate) : RetrievalResult :=
  {| matches := firstn k (rank (filter (passes i) corpus));
     hit := match top1 i corpus with
            | Some c => Qle_bool relevance_threshold (snd c)
            | None => false
            end |}.

(** [c] is a best candidate of [l]: it is in [l] and none scores higher. *)
Definition best (l : list candidate) (c : candidate) : Prop :=
  In c l /\ forall d, In d l -> (snd d <= snd c)%Q.

(** [c] scores at least as high as everything in [l]. *)
Definition above (c : candidate) (l : list candidate) : Prop :=
  forall d, In d l -> (snd d <= snd c)%Q.

(** Scores never rise along the list. *)
Fixpoint descending (l : list candidate) : Prop :=
  match l with
  | [] => True
  | c :: l' => above c l' /\ descending l'
  end.

(** Modelled from the spec: the states of the orchestrator, section 4.5. *)
Inductive Phase :=
| RECEIVED | CLASSIFIED | RETRIEVED | WEB_RESEARCHED | SKIPPED
| SYNTHESIZED | PERSISTED | DONE | FAILED.

(** Modelled from the spec: the sentence by which a response states
    that web research brought nothing. *)
Definition limitation_notice : string :=
  "No further information could be found on the web for this request.".

Definition states_limitation (r : AgentResponse) : bool :=
  includes limitation_notice (text r).

(** Modelled from the spec: what one turn went through and produced. *)
Record Outcome := {
  path : list Phase;
  intent : option QueryIntent;
  retrieved : option RetrievalResult;
  web_evidence : list WebEvidence;
  response : AgentResponse
}.

Section Orchestrator.
(** Configuration. *)
Variable relevance_threshold : Q.
Variable top_k : nat.
(** The collaborators of section 6.  [classify] gives [None] on a
    ClassificationError, [research] gives [None] on
    ResearchUnavailable. *)
Variable classify : string -> option QueryIntent -> option QueryIntent.
Variable search : QueryIntent -> list candidate.
Variable research : QueryIntent -> RetrievalResult -> option (list WebEvidence).
Variable complete : string -> string.

(** Modelled from the spec: [synthesize] of section 4.4.  [web] is
    [None] when web research was skipped, else the evidence gathered.
    The wording comes from the language model; the flags and the
    limitation sentence do not. *)
Definition synthesize (i : QueryIntent) (r : RetrievalResult)
           (web : option (list WebEvidence)) : AgentResponse :=
  {| text := complete (raw_text i)
             ++ match web with
                | Some [] => " " ++ limitation_notice
                | _ => EmptyString
                end;
     cited_properties := map (fun c => id (fst c)) (matches r);
     evidence_used :=
       {| retrieval := hit r;
          web_search := match web with
                        | Some (_ :: _) => true
                        | _ => false
                        end |} |}.

(** Modelled from the spec: the clarification request that answers a
    ClassificationError. *)
Definition clarification : AgentResponse :=
  {| text := "Could you rephrase your question?";
     cited_properties := [];
     evidence_used := {| retrieval := false; web_search := false |} |}.

(** Modelled from the spec: one turn of the state machine of section
    4.5, from RECEIVED to DONE.  A ClassificationError goes straight to
    SYNTHESIZED; ResearchUnavailable counts as no evidence. *)
Definition orchestrate (query : string) (prior : option QueryIntent) : Outcome :=
  match classify query prior with
  | None =>
      {| path := [RECEIVED; SYNTHESIZED; PERSISTED; DONE];
         intent := None; retrieved := None; web_evidence := [];
         response := clarification |}
  | Some i =>
      let r := retrieve relevance_threshold i top_k (search i) in
      if negb (hit r) || out_of_schema i then
        let ev := match research i r with
                  | Some ev => ev
                  | None => []
                  end in
        {| path := [RECEIVED; CLASSIFIED; RETRIEVED; WEB_RESEARCHED;
                    SYNTHESIZED; PERSISTED; DONE];
           intent := Some i; retrieved := Some r; web_evidence := ev;
           response := synthesize i r (Some ev) |}
      else
        {| path := [RECEIVED; CLASSIFIED; RETRIEVED; SKIPPED;
                    SYNTHESIZED; PERSISTED; DONE];
           intent := Some i; retrieved := Some r; web_evidence := [];
           response := synthesize i r None |}
  end.

End Orchestrator.

(** An intent for examples: nothing pinned, half confident, answerable
    from the corpus schema. *)
Definition sample_intent : QueryIntent :=
  {| raw_text := "is this neighborhood safe?"; property_type := None;
     location := None; price_min := None; price_max := None;
     bedrooms := None; amenities := []; reference_property_id := None;
     confidence := 1 # 2; out_of_schema := false |}.

(** A record and a piece of web evidence for examples. *)
Definition sample_property : PropertyRecord :=
  {| id := "p1"; name := "Garden Court"; price := 450000;
     place := "Bangsar South"; rooms := 3; features := ["pool"];
     description := "A three-bedroom condominium."; embedding_ref := "e1" |}.

Definition sample_evidence : WebEvidence :=
  {| source_url := "https://example.org/safety";
     snippet := "Crime in the area fell last year.";
     extracted_facts := [("crime_trend", "falling")];
     fetched_at := 1700000000 |}.

(** One turn with a fixed classifier and language model; the corpus
    returns one record with the given score. *)
Definition turn (i : QueryIntent) (score : Q)
           (answer : option (list WebEvidence)) : Outcome :=
  orchestrate (3 # 4) 3 (fun _ _ => Some i)
    (fun _ => [(sample_property, score)]) (fun _ _ => answer)
    (fun s => s) "is this neighborhood safe?" None.

Definition off_schema : QueryIntent :=
  {| raw_text := "is this neighborhood safe?"; property_type := None;
     location := None; price_min := None; price_max := None;
     bedrooms := None; amenities := []; reference_property_id := None;
     confidence := 1 # 2; out_of_schema := true |}.

End Backend.

(** * Facts *)

(** ** Strings *)

Module JsStringFacts.
Import JsString.

Lemma append_assoc (a b c : string) : (a ++ b) ++ c = a ++ (b ++ c).
Proof. induction a as [|x a IH]; simpl; [reflexivity | now rewrite IH]. Qed.

Lemma length_append (a b : string) :
  String.length (a ++ b) = String.length a + String.length b.
Proof. induction a as [|x a IH]; simpl; [reflexivity | now rewrite IH]. Qed.

Lemma includes_startsWith needle hay :
  startsWith needle hay = true -> includes needle hay = true.
Proof.
  intros H. destruct hay as [|c hay].
  - change (startsWith needle EmptyString || false = true). now rewrite H.
  - change (startsWith needle (String c hay) || includes needle hay = true).
    now rewrite H.
Qed.

Lemma includes_app_l needle a b :
  includes needle b = true -> includes needle (a ++ b) = true.
Proof.
  intros H. induction a as [|x a IH]; simpl append; [exact H|].
  change (startsWith needle (String x (a ++ b)) || includes needle (a ++ b) = true).
  rewrite IH. apply orb_true_r.
Qed.

End JsStringFacts.

(** ** The scanner *)

Module RegexFacts.
Import JsString JsStringFacts Regex.

Lemma span_app p s : fst (span p s) ++ snd (span p s) = s.
Proof.
  induction s as [|c s IH]; simpl; [reflexivity|].
  destruct (p c); [|reflexivity].
  destruct (span p s) as [a b]; simpl in *. now rewrite IH.
Qed.

Lemma span_length p s :
  String.length (snd (span p s)) <= String.length s.
Proof.
  rewrite <- (span_app p s) at 2. rewrite length_append. lia.
Qed.

(** A run free of [c] that is followed by [c] is exactly what [[^c]]
    takes. *)
Lemma span_isNot_stop c a r :
  hasChar c a = false ->
  span (isNot c) (a ++ String c r) = (a, String c r).
Proof.
  induction a as [|x a IH]; simpl; intros H.
  - unfold isNot. now rewrite Ascii.eqb_refl.
  - apply orb_false_iff in H as [Hx Ha].
    unfold isNot at 1. rewrite Ascii.eqb_sym, Hx. simpl.
    now rewrite (IH Ha).
Qed.

Lemma plus_some p s g r :
  plus p s = Some (g, r) -> span p s = (g, r) /\ g <> EmptyString.
Proof.
  unfold plus. destruct (span p s) as [[|c a] b]; [discriminate|].
  intros [= <- <-]. split; [reflexivity | discriminate].
Qed.

Lemma plus_length p s g r :
  plus p s = Some (g, r) -> String.length r <= String.length s.
Proof.
  intros H. apply plus_some in H as [H _].
  pose proof (span_length p s) as L. now rewrite H in L.
Qed.

Lemma plus_split p s g r : plus p s = Some (g, r) -> s = g ++ r.
Proof.
  intros H. apply plus_some in H as [H _].
  pose proof (span_app p s) as E. now rewrite H in E.
Qed.

Lemma strip_split lit s r : strip lit s = Some r -> s = lit ++ r.
Proof.
  revert s. induction lit as [|a lit IH]; intros s; simpl.
  - now intros [= ->].
  - destruct s as [|b s]; [discriminate|].
    destruct (Ascii.eqb_spec a b) as [->|]; [|discriminate].
    intros H. now rewrite (IH _ H).
Qed.

Lemma strip_length lit s r :
  strip lit s = Some r -> String.length s = String.length lit + String.length r.
Proof. intros H. rewrite (strip_split _ _ _ H). apply length_append. Qed.

Ltac step_some H :=
  match type of H with
  | match ?e with Some _ => _ | None => _ end = Some _ =>
      let E := fresh "E" in
      destruct e as [?|] eqn:E; [|discriminate H]
  end.

Ltac step_pair H :=
  match type of H with
  | match ?e with Some _ => _ | None => _ end = Some _ =>
      let E := fresh "E" in
      destruct e as [[? ?]|] eqn:E; [|discriminate H]
  end.

(** What a match of the markdown-link regex looks like. *)
Lemma md_link_split s text url rest :
  md_link s = Some (text, url, rest) ->
  s = "[" ++ text ++ "](" ++ url ++ ")" ++ rest
  /\ text <> EmptyString /\ url <> EmptyString.
Proof.
  unfold md_link. intros H.
  step_some H. step_pair H. step_some H. step_pair H. step_some H.
  injection H as <- <- <-.
  apply strip_split in E, E1, E3.
  pose proof (plus_split _ _ _ _ E0). pose proof (plus_split _ _ _ _ E2).
  apply plus_some in E0 as [_ ?], E2 as [_ ?].
  subst. repeat split; assumption.
Qed.

Lemma md_link_shrinking : shrinking md_link.
Proof.
  intros s g1 g2 rest H. apply md_link_split in H as [-> _].
  simpl. rewrite !length_append. simpl. rewrite !length_append. simpl. lia.
Qed.

Lemma html_anchor_shrinking : shrinking html_anchor.
Proof.
  intros s g1 g2 rest H. unfold html_anchor in H.
  step_some H. step_pair H. step_some H. step_pair H. step_some H.
  step_some H. step_pair H. step_some H.
  injection H as <- <- <-.
  apply strip_length in E, E1, E3, E4, E6.
  apply plus_length in E0, E2, E5.
  match type of E4 with
  | context [span ?p ?x] => pose proof (span_length p x)
  end.
  simpl in *. lia.
Qed.

(** [String.length s] steps are enough: more fuel changes nothing. *)
Lemma scan_fuel m (Hm : shrinking m) f1 :
  forall f2 s,
    String.length s <= f1 -> String.length s <= f2 ->
    scan m f1 s = scan m f2 s.
Proof.
  induction f1 as [|f1 IH]; intros f2 s L1 L2.
  - destruct s; [|simpl in L1; lia]. now destruct f2.
  - destruct s as [|c s]; [now destruct f2|].
    destruct f2 as [|f2]; [simpl in L2; lia|].
    simpl in L1, L2. simpl scan.
    destruct (m (String c s)) as [[[g1 g2] rest]|] eqn:E.
    + f_equal. apply Hm in E. simpl in E. apply IH; lia.
    + f_equal. apply IH; lia.
Qed.

(** A regex that matches nowhere leaves the subject as it is: the scan
    reaches the end of the subject. *)
Lemma replace_no_match f s : replace (fun _ => None) f s = s.
Proof.
  unfold replace. induction s as [|c s IH]; simpl; [reflexivity|].
  now rewrite IH.
Qed.

Section Replace.
Variable m : matcher.
Variable f : string -> string -> string.
Hypothesis Hm : shrinking m.

Lemma replace_miss c s :
  m (String c s) = None ->
  replace m f (String c s) = String c (replace m f s).
Proof. intros E. unfold replace. simpl. now rewrite E. Qed.

Lemma replace_hit s g1 g2 rest :
  m s = Some (g1, g2, rest) ->
  replace m f s = f g1 g2 ++ replace m f rest.
Proof.
  intros E. unfold replace. pose proof (Hm _ _ _ _ E) as L.
  destruct s as [|c s]; [simpl in L; lia|].
  simpl in L. simpl scan. rewrite E. simpl. f_equal. f_equal.
  apply scan_fuel; [exact Hm | lia | lia].
Qed.
End Replace.

End RegexFacts.

(** ** Link rewriting in [formatMessage] *)

Module FormatFacts.
Import JsString JsStringFacts Regex RegexFacts Format.

Lemma plus_isNot_stop c a r :
  a <> EmptyString -> hasChar c a = false ->
  plus (isNot c) (a ++ String c r) = Some (a, String c r).
Proof.
  intros Ha Hc. unfold plus. rewrite (span_isNot_stop _ _ _ Hc).
  destruct a; [contradiction | reflexivity].
Qed.

(** The second regex reads back an anchor the first replacement wrote,
    whatever follows it, when the link is plain. *)
Lemma html_anchor_anchor text url rest :
  text <> EmptyString -> url <> EmptyString ->
  hasChar "<" text = false -> hasChar dquote url = false ->
  html_anchor (anchor text url ++ rest) = Some (url, text, rest).
Proof.
  intros Ht Hu Ht' Hu'. unfold anchor, dq. rewrite !append_assoc.
  unfold html_anchor. simpl.
  rewrite (plus_isNot_stop _ _ _ Hu Hu'). simpl.
  rewrite (plus_isNot_stop _ _ _ Ht Ht'). reflexivity.
Qed.

Lemma links_miss c s :
  md_link (String c s) = None -> links (String c s) = links s.
Proof. intros E. unfold links. simpl. now rewrite E. Qed.

Lemma links_hit s text url rest :
  md_link s = Some (text, url, rest) ->
  links s = (text, url) :: links rest.
Proof.
  intros E. unfold links. pose proof (md_link_shrinking _ _ _ _ E) as L.
  destruct s as [|c s]; [simpl in L; lia|].
  simpl in L. simpl scan. rewrite E. simpl. f_equal. f_equal.
  apply scan_fuel; [exact md_link_shrinking | lia | lia].
Qed.

Lemma hasAnchor_tail c s : hasAnchor (String c s) = false -> hasAnchor s = false.
Proof.
  intros H. change (opensAnchor (String c s) || hasAnchor s = false) in H.
  now apply orb_false_iff in H.
Qed.

Lemma hasAnchor_head s : hasAnchor s = false -> opensAnchor s = false.
Proof.
  intros H. destruct s as [|c s]; [reflexivity|].
  change (opensAnchor (String c s) || hasAnchor s = false) in H.
  now apply orb_false_iff in H.
Qed.

Lemma hasAnchor_app_r a b : hasAnchor (a ++ b) = false -> hasAnchor b = false.
Proof.
  induction a as [|x a IH]; simpl append; [trivial|].
  intros H. apply IH. eapply hasAnchor_tail, H.
Qed.

(** The second regex matches only at an opening anchor tag. *)
Lemma html_anchor_needs_open s : opensAnchor s = false -> html_anchor s = None.
Proof.
  unfold html_anchor, opensAnchor.
  destruct s as [|c0 [|c1 [|c2 r]]]; cbn [strip].
  - reflexivity.
  - now destruct (Ascii.eqb "<" c0).
  - now destruct (Ascii.eqb "<" c0), (Ascii.eqb "a" c1).
  - destruct (Ascii.eqb "<" c0), (Ascii.eqb "a" c1); try reflexivity.
    cbn [andb]. intros H. unfold plus. cbn [span]. now rewrite H.
Qed.

(** What the first replacement leaves at the front: nothing, the first
    character of the content, or the [<] of an anchor it wrote. *)
Lemma markdownContent_shape s :
  markdownContent s = EmptyString
  \/ (exists c r, s = String c r /\ markdownContent s = String c (markdownContent r))
  \/ (exists r, markdownContent s = String "<" r).
Proof.
  unfold markdownContent. destruct s as [|c s]; [now left|].
  destruct (md_link (String c s)) as [[[t u] r]|] eqn:E.
  - right. right. rewrite (replace_hit _ _ md_link_shrinking _ _ _ _ E).
    eexists. reflexivity.
  - right. left. exists c, s. split; [reflexivity|].
    apply (replace_miss _ _ _ _ E).
Qed.

(** Where the content opens no anchor, its image under the first
    replacement opens none either, as long as no link starts there. *)
Lemma opensAnchor_markdownContent c s :
  opensAnchor (String c s) = false ->
  opensAnchor (String c (markdownContent s)) = false.
Proof.
  intros H.
  destruct (markdownContent_shape s) as [->|[(c1 & r & -> & ->)|(r & ->)]].
  - reflexivity.
  - destruct (markdownContent_shape r) as [->|[(c2 & r2 & -> & ->)|(r' & ->)]].
    + reflexivity.
    + exact H.
    + unfold opensAnchor. apply andb_false_r.
  - unfold opensAnchor. destruct r as [|c2 r]; [reflexivity|].
    now rewrite andb_false_r.
Qed.

(** Where the first regex found no link and the content opens no anchor,
    the second regex finds no anchor either. *)
Lemma html_anchor_miss c s :
  hasAnchor (String c s) = false ->
  html_anchor (String c (markdownContent s)) = None.
Proof.
  intros H. apply html_anchor_needs_open, opensAnchor_markdownContent.
  now apply hasAnchor_head.
Qed.

(** A match of the first regex is the markdown form of its groups. *)
Lemma md_link_markdown s text url rest :
  md_link s = Some (text, url, rest) -> s = markdown url text ++ rest.
Proof.
  intros E. destruct (md_link_split _ _ _ _ E) as (-> & _).
  unfold markdown. now rewrite !append_assoc.
Qed.

Lemma finalContent_fixed n :
  forall content,
    String.length content <= n ->
    hasAnchor content = false ->
    forallb plainLink (links content) = true ->
    finalContent content = content.
Proof.
  induction n as [|n IH]; intros s L Hin Hl.
  - destruct s; [reflexivity | simpl in L; lia].
  - destruct s as [|c s]; [reflexivity|].
    unfold finalContent, markdownContent in *.
    destruct (md_link (String c s)) as [[[t u] r]|] eqn:E.
    + rewrite (replace_hit _ _ md_link_shrinking _ _ _ _ E).
      rewrite (links_hit _ _ _ _ E) in Hl. simpl in Hl.
      apply andb_true_iff in Hl as [Hp Hl].
      apply andb_true_iff in Hp as [Ht Hu].
      apply negb_true_iff in Ht, Hu. simpl in Ht, Hu.
      pose proof (md_link_shrinking _ _ _ _ E) as Lr.
      destruct (md_link_split _ _ _ _ E) as (_ & Nt & Nu).
      pose proof (md_link_markdown _ _ _ _ E) as Es.
      rewrite (replace_hit _ _ html_anchor_shrinking _ _ _ _
                 (html_anchor_anchor t u _ Nt Nu Ht Hu)).
      rewrite IH.
      * now rewrite Es.
      * simpl in L, Lr. lia.
      * rewrite Es in Hin. exact (hasAnchor_app_r _ _ Hin).
      * exact Hl.
    + rewrite (replace_miss _ _ _ _ E).
      rewrite (links_miss _ _ E) in Hl.
      rewrite (replace_miss _ _ _ _ (html_anchor_miss _ _ Hin)).
      f_equal. apply IH; [simpl in L; lia | | exact Hl].
      exact (hasAnchor_tail _ _ Hin).
Qed.

(** *** Anchors in the content *)

Lemma hasChar_app c a b : hasChar c (a ++ b) = hasChar c a || hasChar c b.
Proof.
  induction a as [|x a IH]; cbn [hasChar append]; [reflexivity|].
  now rewrite IH, orb_assoc.
Qed.

(** Without a [[] the first regex matches nowhere. *)
Lemma markdownContent_no_bracket s :
  hasChar "[" s = false -> markdownContent s = s.
Proof.
  unfold markdownContent. induction s as [|c s IH]; [reflexivity|].
  cbn [hasChar]. intros [Hc Hs]%orb_false_iff.
  rewrite replace_miss.
  - now rewrite (IH Hs).
  - unfold md_link. cbn [strip]. now rewrite Hc.
Qed.

Lemma span_blank_stop ws d r :
  blank ws = true -> isSpace d = false ->
  span isSpace (ws ++ String d r) = (ws, String d r).
Proof.
  intros B D. induction ws as [|x ws IH]; simpl.
  - now rewrite D.
  - simpl in B. apply andb_true_iff in B as [Hx B]. rewrite Hx.
    now rewrite (IH B).
Qed.

Lemma span_isNot_skip c a :
  hasChar c a = false -> forall r, snd (span (isNot c) (a ++ String c r)) = String c r.
Proof. intros H r. now rewrite (span_isNot_stop _ _ _ H). Qed.

(** The second regex reads an anchor element of the content, whatever
    its further attributes. *)
Lemma html_anchor_tag ws url attrs text rest :
  ws <> EmptyString -> blank ws = true ->
  url <> EmptyString -> hasChar dquote url = false ->
  hasChar ">" attrs = false ->
  text <> EmptyString -> hasChar "<" text = false ->
  html_anchor (anchor_tag ws url attrs text ++ rest) = Some (url, text, rest).
Proof.
  intros Nw Bw Nu Hu Ha Nt Ht. unfold anchor_tag, dq.
  rewrite !append_assoc. unfold html_anchor. cbn [strip append].
  rewrite !Ascii.eqb_refl. unfold plus at 1.
  change (String "h" ?x) with (String "h" x).
  rewrite (span_blank_stop ws "h" _ Bw eq_refl).
  destruct ws as [|w0 ws]; [contradiction|].
  unfold href_eq_quote. cbn [strip append]. rewrite !Ascii.eqb_refl.
  rewrite (plus_isNot_stop _ _ _ Nu Hu). cbn [strip].
  rewrite Ascii.eqb_refl.
  rewrite (span_isNot_skip _ _ Ha). cbn [strip]. rewrite Ascii.eqb_refl.
  rewrite (plus_isNot_stop _ _ _ Nt Ht). cbn [strip].
  rewrite !Ascii.eqb_refl. reflexivity.
Qed.

(** The second regex passes over text without [<]. *)
Lemma replace_html_anchor_skip f pre s :
  hasChar "<" pre = false ->
  replace html_anchor f (pre ++ s) = pre ++ replace html_anchor f s.
Proof.
  induction pre as [|c pre IH]; [reflexivity|].
  cbn [hasChar append]. intros [Hc Hp]%orb_false_iff.
  rewrite replace_miss.
  - now rewrite (IH Hp).
  - unfold html_anchor. cbn [strip]. now rewrite Hc.
Qed.

End FormatFacts.

(** ** The API client *)

Module ClientFacts.
Import JsString JsStringFacts Json Types Runtime Client.

#[local] Arguments get : simpl never.
#[local] Arguments ok : simpl never.

Ltac js_run :=
  repeat progress
    (unfold chatWithAgent, mockChatWithAgent, sleep, try_catch, try_finally,
       await, response_json, prop, console_error, console_log, print,
       issue, toast, update, read, bind, ret, throw in *;
     simpl in *).

(** [chatWithAgent] case by case. *)
Lemma chatWithAgent_cases message reply w :
  match reply with
  | Rejected e =>
      chatWithAgent message reply w
      = (inr {| message := json (JString fallback); success := false |},
         logged e (sent message w))
  | Resolved r =>
      if ok r then
        match payload r with
        | Some d =>
            match get "response" d with
            | Some v =>
                chatWithAgent message reply w
                = (inr {| message := v; success := true |}, sent message w)
            | None =>
                exists e,
                chatWithAgent message reply w
                = (inr {| message := json (JString fallback); success := false |},
                   logged e (sent message w))
            end
        | None =>
            exists e,
            chatWithAgent message reply w
            = (inr {| message := json (JString fallback); success := false |},
               logged e (sent message w))
        end
      else
        exists e,
        chatWithAgent message reply w
        = (inr {| message := json (JString fallback); success := false |},
           logged e (sent message w))
  end.
Proof.
  destruct reply as [e|r]; [reflexivity|].
  destruct (ok r) eqn:Hok.
  - destruct (payload r) as [d|] eqn:Hp.
    + destruct (get "response" d) as [v|] eqn:Hg.
      * js_run. rewrite Hok, Hp. js_run. now rewrite Hg.
      * eexists. js_run. rewrite Hok, Hp. js_run. now rewrite Hg.
    + eexists. js_run. now rewrite Hok, Hp.
  - eexists. js_run. now rewrite Hok.
Qed.

(** *** The mock *)

Lemma startsWith_lower needle :
  forall s,
    startsWith needle s = true ->
    startsWith (toLowerCase needle) (toLowerCase s) = true.
Proof.
  induction needle as [|a needle IH]; intros s H; [reflexivity|].
  destruct s as [|b s]; [discriminate|]. simpl in *.
  apply andb_true_iff in H as [Hab Hs].
  apply Ascii.eqb_eq in Hab as ->. rewrite Ascii.eqb_refl. now apply IH.
Qed.

(** Lower-casing keeps every occurrence. *)
Lemma includes_lower needle s :
  includes needle s = true ->
  includes (toLowerCase needle) (toLowerCase s) = true.
Proof.
  induction s as [|c s IH]; intros H.
  - apply includes_startsWith. apply (startsWith_lower needle EmptyString).
    destruct needle; [reflexivity|discriminate].
  - change (startsWith needle (String c s) || includes needle s = true) in H.
    apply orb_true_iff in H as [H|H].
    + apply includes_startsWith. now apply (startsWith_lower needle (String c s)).
    + change (toLowerCase (String c s))
        with (String (lowerChar c) EmptyString ++ toLowerCase s)%string.
      apply includes_app_l. now apply IH.
Qed.

(** The cascade of the mock is the first matching keyword group. *)
Lemma mock_first_match message w :
  mockChatWithAgent message w
  = (inr (said (first_match keyword_groups (toLowerCase message))), w).
Proof.
  unfold mockChatWithAgent, sleep, bind, ret, keyword_groups.
  cbn [first_match existsb]. rewrite !orb_false_r, !orb_assoc.
  repeat match goal with
         | |- context [if ?b then _ else _] => destruct b
         end; reflexivity.
Qed.

End ClientFacts.

(** ** The chat widget *)

Module WidgetFacts.
Import JsString JsStringFacts Json Types Runtime ChatWidget.
Local Open Scope list_scope.

#[local] Arguments get : simpl never.
#[local] Arguments ok : simpl never.
#[local] Arguments trim : simpl never.
#[local] Arguments show : simpl never.

Ltac js_run :=
  repeat progress
    (unfold handleSendMessage, handleSendMessage_start,
       handleSendMessage_resume, effect, handleChange,
       setMessages, setInputValue, setIsLoading, setThreadId, setAwaiting,
       try_catch, try_finally,
       await, response_json, prop, console_error, console_log, print,
       issue, toast, update, read, bind, ret, throw in *;
     simpl in *).

(** At the guard the handler returns and the world is as it was. *)
Lemma start_guard uuid now w :
  negb (truthy (trim (inputValue w))) || noThread (threadId w) = true ->
  handleSendMessage_start uuid now w = (inr false, w).
Proof. intros H. js_run. now rewrite H. Qed.

(** Past the guard: one message appended, the input cleared, the
    loading flag raised, one request sent. *)
Lemma start_sends uuid now w :
  negb (truthy (trim (inputValue w))) || noThread (threadId w) = false ->
  handleSendMessage_start uuid now w
  = (inr true,
     {| messages := messages w ++ [userMessage uuid now (inputValue w)];
        inputValue := EmptyString;
        isLoading := true;
        threadId := threadId w;
        awaiting := awaiting w;
        requests := requests w
                      ++ [inquiry_request (inputValue w) (threadId w)];
        toasts := toasts w;
        console := console w |}).
Proof. intros H. js_run. now rewrite H. Qed.

(** The handler after the fetch settled: it never throws; on a reply it
    can read it appends the assistant message, otherwise it shows the
    error toast; the loading flag falls in both cases. *)
Lemma resume_spec reply uuid now w :
  exists logs,
    handleSendMessage_resume reply uuid now w
    = (inr tt,
       {| messages := match response_of reply with
                      | Some v => messages w ++ [botMessage uuid now v]
                      | None => messages w
                      end;
          inputValue := inputValue w;
          isLoading := false;
          threadId := threadId w;
          awaiting := awaiting w;
          requests := requests w;
          toasts := match response_of reply with
                    | Some _ => toasts w
                    | None => toasts w ++ [error_toast]
                    end;
          console := console w ++ logs |}).
Proof.
  destruct reply as [e|r]; [eexists [_]; reflexivity|].
  unfold response_of. destruct (ok r) eqn:Hok.
  - destruct (payload r) as [d|] eqn:Hp.
    + destruct (get "response" d) as [v|] eqn:Hg.
      * eexists [_]. js_run. rewrite Hok, Hp. js_run. rewrite Hg.
        reflexivity.
      * eexists [_; _]. js_run. rewrite Hok, Hp. js_run. rewrite Hg. js_run.
        rewrite <- List.app_assoc. reflexivity.
    + eexists [_]. js_run. rewrite Hok, Hp. reflexivity.
  - eexists [_]. js_run. rewrite Hok. reflexivity.
Qed.

(** Of the body of a reply only the [response] property reaches what
    the user sees. *)
Lemma consumes_only_response k : consumes k -> k = "response"%string.
Proof.
  intros (d1 & d2 & st & txt & u & t & w & Hag & Hv).
  destruct (String.eqb_spec k "response") as [E|N]; [exact E|].
  exfalso. apply Hv. specialize (Hag "response"%string (not_eq_sym N)).
  destruct (resume_spec (Resolved {| status := st; statusText := txt;
                                     payload := Some d1 |}) u t w)
    as [l1 ->].
  destruct (resume_spec (Resolved {| status := st; statusText := txt;
                                     payload := Some d2 |}) u t w)
    as [l2 ->].
  unfold view, response_of. simpl. rewrite Hag. reflexivity.
Qed.

Lemma consumes_response : consumes "response".
Proof.
  exists (JObject [("response", JString "a")]),
         (JObject [("response", JString "b")]),
         200%N, "OK"%string, "u"%string, 0%Z, (initial 0).
  split.
  - intros k' Hk. unfold get. simpl.
    apply String.eqb_neq in Hk. now rewrite Hk.
  - discriminate.
Qed.

(** *** The events one by one *)

Lemma step_effect w uuid :
  step w (Effect uuid)
  = if noThread (threadId w)
    then {| messages := messages w; inputValue := inputValue w;
            isLoading := isLoading w; threadId := Some uuid;
            awaiting := awaiting w; requests := requests w;
            toasts := toasts w; console := console w |}
    else w.
Proof.
  unfold step, handler. js_run. now destruct (noThread (threadId w)).
Qed.

Lemma step_change w v :
  step w (Change v)
  = {| messages := messages w; inputValue := v;
       isLoading := isLoading w; threadId := threadId w;
       awaiting := awaiting w; requests := requests w;
       toasts := toasts w; console := console w |}.
Proof. reflexivity. Qed.

Lemma step_send_guard w uuid now :
  negb (truthy (trim (inputValue w))) || noThread (threadId w) = true ->
  step w (Send uuid now) = w.
Proof.
  intros H. unfold step, handler, bind.
  now rewrite (start_guard _ _ _ H).
Qed.

Lemma step_send w uuid now :
  negb (truthy (trim (inputValue w))) || noThread (threadId w) = false ->
  step w (Send uuid now)
  = {| messages := messages w ++ [userMessage uuid now (inputValue w)];
       inputValue := EmptyString;
       isLoading := true;
       threadId := threadId w;
       awaiting := S (awaiting w);
       requests := requests w
                     ++ [inquiry_request (inputValue w) (threadId w)];
       toasts := toasts w;
       console := console w |}.
Proof.
  intros H. unfold step, handler, bind.
  now rewrite (start_sends _ _ _ H).
Qed.

Lemma step_settle_idle w reply uuid now :
  awaiting w = 0 -> step w (Settle reply uuid now) = w.
Proof.
  intros H. unfold step, handler, bind, read. now rewrite H.
Qed.

Lemma step_settle w reply uuid now n :
  awaiting w = S n ->
  exists logs,
    step w (Settle reply uuid now)
    = {| messages := match response_of reply with
                     | Some v => messages w ++ [botMessage uuid now v]
                     | None => messages w
                     end;
         inputValue := inputValue w;
         isLoading := false;
         threadId := threadId w;
         awaiting := n;
         requests := requests w;
         toasts := match response_of reply with
                   | Some _ => toasts w
                   | None => toasts w ++ [error_toast]
                   end;
         console := console w ++ logs |}.
Proof.
  intros H. unfold step, handler, bind, read. rewrite H.
  unfold setAwaiting, update.
  match goal with
  | |- context [handleSendMessage_resume ?r ?u ?t ?x] =>
      destruct (resume_spec r u t x) as [logs E]; rewrite E
  end.
  exists logs. reflexivity.
Qed.

(** Every event leaves the transcript as it was or appends one turn. *)
Lemma step_messages w ev :
  messages (step w ev) = messages w
  \/ exists m, messages (step w ev) = messages w ++ [m].
Proof.
  destruct ev as [u|v|u now|reply u now].
  - rewrite step_effect. left. now destruct (noThread (threadId w)).
  - left. reflexivity.
  - destruct (negb (truthy (trim (inputValue w))) || noThread (threadId w))
      eqn:G.
    + left. now rewrite step_send_guard.
    + right. rewrite step_send by exact G. eexists. reflexivity.
  - destruct (awaiting w) as [|n] eqn:A.
    + left. now rewrite step_settle_idle.
    + destruct (step_settle w reply u now n A) as [logs ->]. simpl.
      destruct (response_of reply); [right; eexists|left]; reflexivity.
Qed.

Lemma run_messages evs :
  forall w, exists added, messages (run w evs) = messages w ++ added.
Proof.
  induction evs as [|ev evs IH]; intros w; simpl.
  - exists []. now rewrite app_nil_r.
  - destruct (IH (step w ev)) as [added ->].
    destruct (step_messages w ev) as [->|[m ->]].
    + now exists added.
    + exists (m :: added). now rewrite <- List.app_assoc.
Qed.

Lemma is_uuid_nonempty u : is_uuid u = true -> u <> EmptyString.
Proof. intros H ->. discriminate. Qed.

Lemma noThread_some t : t <> EmptyString -> noThread (Some t) = false.
Proof. destruct t; [contradiction | reflexivity]. Qed.

Lemma inquiry_request_carries query t :
  url (inquiry_request query (Some t)) = inquiry_url
  /\ carries (inquiry_request query (Some t)) query t.
Proof. repeat split. Qed.

(** The session invariant holds at mount and every event keeps it. *)
Lemma thread_inv_initial now : thread_inv (initial now).
Proof. reflexivity. Qed.

Lemma thread_inv_step w ev :
  well_formed ev = true -> thread_inv w -> thread_inv (step w ev).
Proof.
  unfold thread_inv. intros Hwf Inv.
  destruct ev as [u|v|u now|reply u now].
  - rewrite step_effect.
    destruct (threadId w) as [t|] eqn:T.
    + destruct Inv as [Ne Inv]. rewrite (noThread_some _ Ne). now rewrite T.
    + simpl. split; [now apply is_uuid_nonempty|].
      rewrite Inv. intros r [].
  - exact Inv.
  - destruct (negb (truthy (trim (inputValue w))) || noThread (threadId w))
      eqn:G.
    + now rewrite step_send_guard.
    + rewrite step_send by exact G. simpl.
      apply orb_false_iff in G as [_ G].
      destruct (threadId w) as [t|]; [|discriminate].
      destruct Inv as [Ne Inv]. split; [exact Ne|].
      intros r [Hr|[<-|[]]]%in_app_or; [now apply Inv|].
      destruct (inquiry_request_carries (inputValue w) t) as [U C].
      split; [exact U | now exists (inputValue w)].
  - destruct (awaiting w) as [|n] eqn:A.
    + now rewrite step_settle_idle.
    + destruct (step_settle w reply u now n A) as [logs ->]. exact Inv.
Qed.

Lemma thread_inv_run evs :
  forall w,
    forallb well_formed evs = true -> thread_inv w -> thread_inv (run w evs).
Proof.
  induction evs as [|ev evs IH]; intros w Hwf Inv; simpl; [exact Inv|].
  simpl in Hwf. apply andb_true_iff in Hwf as [H1 H2].
  apply IH; [exact H2 | now apply thread_inv_step].
Qed.

(** Every request of a session meets the contract of the inquiry
    endpoint. *)
Lemma meets_contract_step w ev :
  (forall r, In r (requests w) -> meets_contract r) ->
  forall r, In r (requests (step w ev)) -> meets_contract r.
Proof.
  intros Inv. destruct ev as [u|v|u now|reply u now].
  - rewrite step_effect. now destruct (noThread (threadId w)).
  - exact Inv.
  - destruct (negb (truthy (trim (inputValue w))) || noThread (threadId w))
      eqn:G.
    + now rewrite step_send_guard.
    + rewrite step_send by exact G. simpl.
      apply orb_false_iff in G as [_ G].
      destruct (threadId w) as [t|]; [|discriminate].
      intros r [Hr|[<-|[]]]%in_app_or; [now apply Inv|].
      destruct (inquiry_request_carries (inputValue w) t) as [U C].
      split; [exact U | now exists (inputValue w), t].
  - destruct (awaiting w) as [|n] eqn:A.
    + now rewrite step_settle_idle.
    + destruct (step_settle w reply u now n A) as [logs ->]. exact Inv.
Qed.

Lemma meets_contract_run evs :
  forall w,
    (forall r, In r (requests w) -> meets_contract r) ->
    forall r, In r (requests (run w evs)) -> meets_contract r.
Proof.
  induction evs as [|ev evs IH]; intros w Inv; simpl; [exact Inv|].
  apply IH. now apply meets_contract_step.
Qed.

(** Once assigned, the thread id is kept by every event. *)
Lemma threadId_step w ev t :
  t <> EmptyString -> threadId w = Some t -> threadId (step w ev) = Some t.
Proof.
  intros Ne T. destruct ev as [u|v|u now|reply u now].
  - rewrite step_effect, T, (noThread_some _ Ne). exact T.
  - exact T.
  - destruct (negb (truthy (trim (inputValue w))) || noThread (threadId w))
      eqn:G.
    + now rewrite step_send_guard.
    + now rewrite step_send.
  - destruct (awaiting w) as [|n] eqn:A.
    + now rewrite step_settle_idle.
    + now destruct (step_settle w reply u now n A) as [logs ->].
Qed.

Lemma threadId_run evs :
  forall w t,
    t <> EmptyString -> threadId w = Some t -> threadId (run w evs) = Some t.
Proof.
  induction evs as [|ev evs IH]; intros w t Ne T; simpl; [exact T|].
  apply IH; [exact Ne | now apply threadId_step].
Qed.

End WidgetFacts.

(** ** Retrieval and escalation *)

Module BackendFacts.
Import JsString JsStringFacts Backend.
Local Open Scope list_scope.

Lemma insert_In c l d : In d (insert c l) <-> d = c \/ In d l.
Proof.
  induction l as [|e l IH]; simpl.
  - intuition congruence.
  - destruct (Qle_bool (snd e) (snd c)); simpl; [intuition congruence|].
    rewrite IH. intuition congruence.
Qed.

Lemma rank_In l d : In d (rank l) <-> In d l.
Proof.
  induction l as [|c l IH]; simpl; [reflexivity|].
  rewrite insert_In, IH. intuition congruence.
Qed.

Lemma insert_descending c l : descending l -> descending (insert c l).
Proof.
  induction l as [|e l IH]; simpl; intros D.
  - split; [intros d []|exact I].
  - destruct D as [A D].
    destruct (Qle_bool (snd e) (snd c)) eqn:Q.
    + apply Qle_bool_iff in Q. simpl. repeat split; try assumption.
      intros d [<-|Hd]; [exact Q|].
      eapply Qle_trans; [apply A, Hd | exact Q].
    + assert (snd c <= snd e)%Q as L.
      { apply Qlt_le_weak, Qnot_le_lt. intros H.
        apply Qle_bool_iff in H. congruence. }
      simpl. split; [|now apply IH].
      intros d Hd. apply insert_In in Hd as [->|Hd]; [exact L | now apply A].
Qed.

Lemma rank_descending l : descending (rank l).
Proof.
  induction l as [|c l IH]; simpl; [exact I | now apply insert_descending].
Qed.

(** The head of the ranking is a best candidate. *)
Lemma rank_head_best l c rest : rank l = c :: rest -> best l c.
Proof.
  intros E. pose proof (rank_descending l) as D. rewrite E in D.
  destruct D as [A _]. split.
  - apply rank_In. rewrite E. now left.
  - intros d Hd. apply rank_In in Hd. rewrite E in Hd.
    destruct Hd as [<-|Hd]; [apply Qle_refl | now apply A].
Qed.

Lemma rank_nonempty l c : In c l -> rank l <> [].
Proof.
  intros H E. apply rank_In in H. now rewrite E in H.
Qed.

Lemma notice_occurs prefix :
  includes limitation_notice (prefix ++ " " ++ limitation_notice)%string = true.
Proof.
  apply includes_app_l. apply (includes_app_l _ " "%string).
  apply includes_startsWith. reflexivity.
Qed.

End BackendFacts.

(** ** The widget on screen *)

Module UiFacts.
Import JsString JsStringFacts Json Types Runtime ChatWidget WidgetFacts Ui.
Local Open Scope list_scope.

(** *** The guard *)

Lemma trimEnd_head c s : isSpace c = false -> trimEnd (String c s) <> EmptyString.
Proof.
  intros H. simpl. destruct (trimEnd s); [now rewrite H | discriminate].
Qed.

Lemma trimStart_shape s :
  trimStart s = EmptyString
  \/ exists c r, trimStart s = String c r /\ isSpace c = false.
Proof.
  induction s as [|c s IH]; simpl; [now left|].
  destruct (isSpace c) eqn:E; [exact IH|]. right. now exists c, s.
Qed.

Lemma trimStart_blank s : trimStart s = EmptyString -> blank s = true.
Proof.
  induction s as [|c s IH]; simpl; [reflexivity|].
  destruct (isSpace c); [exact IH | discriminate].
Qed.

(** [trim] gives the empty string exactly on blank input. *)
Lemma trim_empty_iff s : trim s = EmptyString <-> blank s = true.
Proof.
  split.
  - unfold trim. intros H.
    destruct (trimStart_shape s) as [E|(c & r & E & Hc)].
    + now apply trimStart_blank.
    + rewrite E in H. now apply trimEnd_head in H.
  - intros H. unfold trim.
    assert (trimStart s = EmptyString) as ->; [|reflexivity].
    induction s as [|c s IH]; simpl in *; [reflexivity|].
    apply andb_true_iff in H as [Hc Hs]. rewrite Hc. now apply IH.
Qed.

Lemma guard_bool s t :
  negb (truthy (trim s)) || noThread t
  = negb (negb (blank s) && negb (noThread t)).
Proof.
  destruct (blank s) eqn:B.
  - apply trim_empty_iff in B. now rewrite B.
  - destruct (trim s) eqn:T.
    + apply trim_empty_iff in T. congruence.
    + simpl. now destruct (noThread t).
Qed.

Lemma start_past_guard uuid now w :
  negb (blank (inputValue w)) && negb (noThread (threadId w)) = true ->
  handleSendMessage_start uuid now w
  = (inr true,
     {| messages := messages w ++ [userMessage uuid now (inputValue w)];
        inputValue := EmptyString;
        isLoading := true;
        threadId := threadId w;
        awaiting := awaiting w;
        requests := requests w
                      ++ [inquiry_request (inputValue w) (threadId w)];
        toasts := toasts w;
        console := console w |}).
Proof.
  intros H. apply start_sends. rewrite guard_bool. now rewrite H.
Qed.

(** *** Actions are events of the widget *)

Lemma act_event w a :
  act w a = match event_of w a with
            | Some ev => step w ev
            | None => w
            end.
Proof.
  destruct a as [u|v|e u now|u now|reply u now].
  - reflexivity.
  - unfold act, dispatch, bind, read. simpl. now destruct (isLoading w).
  - unfold act, dispatch, bind, read. simpl.
    destruct (isLoading w); [reflexivity|]. unfold handleKeyDown.
    destruct (String.eqb (key e) "Enter" && negb (shiftKey e));
      [|reflexivity].
    unfold step, handler, bind, suspend.
    destruct (handleSendMessage_start u now w) as [[err|[|]] w']; reflexivity.
  - unfold act, dispatch, bind, read. simpl.
    destruct (sendDisabled w); [reflexivity|].
    unfold step, handler, bind, suspend.
    destruct (handleSendMessage_start u now w) as [[err|[|]] w']; reflexivity.
  - reflexivity.
Qed.

(** A send only reaches the widget while it is not loading. *)
Lemma event_of_send w a ev :
  event_of w a = Some ev -> is_send ev = true -> isLoading w = false.
Proof.
  destruct a as [u|v|e u now|u now|reply u now]; simpl.
  - now intros [= <-].
  - destruct (isLoading w); [discriminate | now intros [= <-]].
  - now destruct (isLoading w).
  - unfold sendDisabled. destruct (isLoading w); [discriminate|reflexivity].
  - now intros [= <-].
Qed.

(** What every event keeps, every action keeps. *)
Lemma session_keeps (P : World -> Prop) :
  (forall w ev, (is_send ev = true -> isLoading w = false) ->
                P w -> P (step w ev)) ->
  forall actions w, P w -> P (session w actions).
Proof.
  intros Step actions. induction actions as [|a actions IH]; intros w Pw;
    simpl; [exact Pw|].
  apply IH. rewrite act_event.
  destruct (event_of w a) as [ev|] eqn:E; [|exact Pw].
  apply Step; [|exact Pw]. now apply (event_of_send w a).
Qed.

Lemma run_keeps (P : World -> Prop) :
  (forall w ev, P w -> P (step w ev)) ->
  forall evs w, P w -> P (run w evs).
Proof.
  intros Step evs. induction evs as [|ev evs IH]; intros w Pw; simpl;
    [exact Pw|].
  apply IH. now apply Step.
Qed.

(** *** One request in flight *)

Lemma answers_snoc last ms m :
  answers last (ms ++ [m])
  = answers last ms
    && match role m, final_role last ms with
       | assistant, assistant => false
       | _, _ => true
       end.
Proof.
  revert last. induction ms as [|x ms IH]; intros last; simpl.
  - destruct (role m), last; reflexivity.
  - destruct (role x), last; simpl; try apply IH. reflexivity.
Qed.

Lemma final_role_snoc last ms m : final_role last (ms ++ [m]) = role m.
Proof.
  revert last. induction ms as [|x ms IH]; intros last; simpl;
    [reflexivity | apply IH].
Qed.

Lemma in_flight_step w ev :
  (is_send ev = true -> isLoading w = false) ->
  in_flight w -> in_flight (step w ev).
Proof.
  intros G (A & Ne & D & L). unfold in_flight.
  destruct ev as [u|v|u now|reply u now].
  - rewrite step_effect.
    destruct (noThread (threadId w)); exact (conj A (conj Ne (conj D L))).
  - exact (conj A (conj Ne (conj D L))).
  - specialize (G eq_refl).
    destruct (negb (truthy (trim (inputValue w))) || noThread (threadId w))
      eqn:Gd.
    + rewrite step_send_guard by exact Gd.
      exact (conj A (conj Ne (conj D L))).
    + rewrite step_send by exact Gd. simpl. rewrite G in A.
      destruct (messages w) as [|m0 ms] eqn:M; [contradiction|].
      simpl. split; [now rewrite A|]. split; [discriminate|]. split.
      * rewrite answers_snoc. simpl in D. rewrite D. reflexivity.
      * intros _. now rewrite final_role_snoc.
  - destruct (awaiting w) as [|n] eqn:Aw.
    + rewrite step_settle_idle by exact Aw. rewrite Aw.
      exact (conj A (conj Ne (conj D L))).
    + destruct (step_settle w reply u now n Aw) as [logs ->]. simpl.
      destruct (isLoading w) eqn:Ld; [|discriminate].
      injection A as ->. specialize (L eq_refl).
      destruct (messages w) as [|m0 ms] eqn:M; [contradiction|].
      simpl in L, D. injection L as L.
      destruct (response_of reply) as [v|].
      * split; [reflexivity|]. split; [discriminate|]. split; [|discriminate].
        simpl. rewrite answers_snoc, D, L. reflexivity.
      * split; [reflexivity|]. split; [discriminate|]. split; [exact D|].
        discriminate.
Qed.

Lemma in_flight_initial now : in_flight (initial now).
Proof.
  split; [reflexivity|]. split; [discriminate|]. split; [reflexivity|].
  discriminate.
Qed.

(** *** What was sent, what is shown, what came back *)

Lemma query_of_request q t :
  get "query" (body (inquiry_request q t)) = Some (json (JString q)).
Proof. now destruct t. Qed.

Lemma user_texts_snoc ms m :
  user_texts (ms ++ [m])
  = user_texts ms ++ (if is_user m then [Some (content m)] else []).
Proof.
  unfold user_texts. rewrite filter_app, map_app. simpl.
  now destruct (is_user m).
Qed.

Lemma sent_is_said_step w ev :
  queries (requests w) = user_texts (messages w) ->
  queries (requests (step w ev)) = user_texts (messages (step w ev)).
Proof.
  intros H. destruct ev as [u|v|u now|reply u now].
  - rewrite step_effect. now destruct (noThread (threadId w)).
  - exact H.
  - destruct (negb (truthy (trim (inputValue w))) || noThread (threadId w))
      eqn:Gd.
    + now rewrite step_send_guard.
    + rewrite step_send by exact Gd. cbn [requests messages].
      unfold queries in *. rewrite map_app, user_texts_snoc, H.
      cbn [map]. rewrite query_of_request. reflexivity.
  - destruct (awaiting w) as [|n] eqn:Aw.
    + now rewrite step_settle_idle.
    + destruct (step_settle w reply u now n Aw) as [logs ->]. simpl.
      destruct (response_of reply); [|exact H].
      rewrite user_texts_snoc. simpl. now rewrite app_nil_r.
Qed.

Lemma assistant_turns_snoc ms m :
  assistant_turns (ms ++ [m])
  = assistant_turns ms + (if is_user m then 0 else 1).
Proof.
  unfold assistant_turns. rewrite filter_app, length_app. simpl.
  now destruct (is_user m).
Qed.

Lemma settled_step w ev : settled w -> settled (step w ev).
Proof.
  unfold settled. intros H. destruct ev as [u|v|u now|reply u now].
  - rewrite step_effect. now destruct (noThread (threadId w)).
  - exact H.
  - destruct (negb (truthy (trim (inputValue w))) || noThread (threadId w))
      eqn:Gd.
    + now rewrite step_send_guard.
    + rewrite step_send by exact Gd. simpl.
      rewrite length_app, assistant_turns_snoc. simpl. lia.
  - destruct (awaiting w) as [|n] eqn:Aw.
    + rewrite step_settle_idle by exact Aw. now rewrite Aw.
    + destruct (step_settle w reply u now n Aw) as [logs ->]. simpl.
      destruct (response_of reply).
      * rewrite assistant_turns_snoc. simpl. lia.
      * rewrite length_app. simpl. lia.
Qed.

(** *** Rendering *)

Lemma renderMessages_paragraphs ms bs :
  renderMessages ms = inr bs -> paragraphs bs = user_texts ms.
Proof.
  revert bs. induction ms as [|m ms IH]; intros bs; simpl.
  - now intros [= <-].
  - unfold renderMessage, user_texts. simpl.
    destruct (is_user m) eqn:U.
    + destruct (renderMessages ms) as [e|bs']; [discriminate|].
      intros [= <-]. simpl. f_equal. now apply IH.
    + destruct (formatMessage (content m)) as [e|text]; [discriminate|].
      destruct (renderMessages ms) as [e|bs']; [discriminate|].
      intros [= <-]. simpl. now apply IH.
Qed.

Lemma formatMessage_string v :
  (exists text, formatMessage v = inr text) <-> is_string v = true.
Proof.
  split.
  - intros [text H]. destruct v as [|[]]; try discriminate. reflexivity.
  - intros H. destruct v as [|[]]; try discriminate. eexists. reflexivity.
Qed.

Lemma renderMessages_succeeds ms :
  (exists bs, renderMessages ms = inr bs) <-> replies_are_strings ms = true.
Proof.
  induction ms as [|m ms IH]; simpl.
  - split; [reflexivity | intros _; now eexists].
  - unfold renderMessage. destruct (is_user m) eqn:U; simpl.
    + rewrite <- IH. split.
      * intros [bs H]. destruct (renderMessages ms) as [e|bs'];
          [discriminate | now eexists].
      * intros [bs ->]. now eexists.
    + rewrite andb_true_iff, <- IH, <- formatMessage_string. split.
      * intros [bs H].
        destruct (formatMessage (content m)) as [e|text]; [discriminate|].
        destruct (renderMessages ms) as [e|bs']; [discriminate|].
        split; now eexists.
      * intros [[text ->] [bs ->]]. now eexists.
Qed.


Lemma replies_are_strings_snoc ms m :
  replies_are_strings (ms ++ [m])
  = replies_are_strings ms && (is_user m || is_string (content m)).
Proof.
  unfold replies_are_strings. rewrite forallb_app. simpl.
  now rewrite andb_true_r.
Qed.

Lemma replies_are_strings_step w ev :
  (forall reply u now, ev = Settle reply u now -> typed reply = true) ->
  replies_are_strings (messages w) = true ->
  replies_are_strings (messages (step w ev)) = true.
Proof.
  intros T H. destruct ev as [u|v|u now|reply u now].
  - rewrite step_effect. now destruct (noThread (threadId w)).
  - exact H.
  - destruct (negb (truthy (trim (inputValue w))) || noThread (threadId w))
      eqn:Gd.
    + now rewrite step_send_guard.
    + rewrite step_send by exact Gd. simpl.
      rewrite replies_are_strings_snoc, H. reflexivity.
  - destruct (awaiting w) as [|n] eqn:Aw.
    + now rewrite step_settle_idle.
    + destruct (step_settle w reply u now n Aw) as [logs ->]. simpl.
      specialize (T reply u now eq_refl). unfold typed in T.
      destruct (response_of reply) as [v|]; [|exact H].
      rewrite replies_are_strings_snoc, H. simpl. exact T.
Qed.

Lemma replies_are_strings_session actions :
  forall w,
    forallb typed_reply actions = true ->
    replies_are_strings (messages w) = true ->
    replies_are_strings (messages (session w actions)) = true.
Proof.
  induction actions as [|a actions IH]; intros w T H; simpl; [exact H|].
  simpl in T. apply andb_true_iff in T as [Ta T].
  apply IH; [exact T|]. rewrite act_event.
  destruct (event_of w a) as [ev|] eqn:E; [|exact H].
  apply replies_are_strings_step; [|exact H].
  intros reply u now ->.
  destruct a as [u'|v|e u' now'|u' now'|reply' u' now']; simpl in E.
  - discriminate.
  - destruct (isLoading w); discriminate.
  - destruct (isLoading w); [discriminate|].
    destruct (String.eqb (key e) "Enter" && negb (shiftKey e)); discriminate.
  - destruct (sendDisabled w); discriminate.
  - injection E as -> _ _. exact Ta.
Qed.

End UiFacts.

(** ** Occurrences *)

Module IncludesFacts.
Import JsString JsStringFacts.

Lemma startsWith_split needle s :
  startsWith needle s = true <-> exists q, s = needle ++ q.
Proof.
  revert s. induction needle as [|a needle IH]; intros s; simpl.
  - split; [intros _; now exists s | reflexivity].
  - destruct s as [|b s].
    + split; [discriminate | intros [q H]; discriminate H].
    + rewrite andb_true_iff, IH. split.
      * intros [E [q ->]]. apply Ascii.eqb_eq in E as ->. now exists q.
      * intros [q [= <- ->]]. split; [apply Ascii.eqb_refl | now exists q].
Qed.

(** [includes] finds [needle] exactly when the subject is some prefix,
    [needle], some suffix. *)
Lemma includes_split needle s :
  includes needle s = true <-> exists p q, s = p ++ needle ++ q.
Proof.
  induction s as [|c s IH].
  - change (includes needle EmptyString)
      with (startsWith needle EmptyString || false).
    rewrite orb_false_r, startsWith_split. split.
    + intros [q H]. now exists EmptyString, q.
    + intros (p & q & H). destruct p; [now exists q | discriminate H].
  - change (includes needle (String c s))
      with (startsWith needle (String c s) || includes needle s).
    rewrite orb_true_iff, startsWith_split, IH. split.
    + intros [[q H]|(p & q & ->)].
      * now exists EmptyString, q.
      * now exists (String c p), q.
    + intros (p & q & H). destruct p as [|x p].
      * left. now exists q.
      * right. injection H as -> ->. now exists p, q.
Qed.

Lemma includes_trans a b c :
  includes a b = true -> includes b c = true -> includes a c = true.
Proof.
  intros (p1 & q1 & ->)%includes_split (p2 & q2 & ->)%includes_split.
  apply includes_split. exists (p2 ++ p1), (q1 ++ q2).
  now rewrite !append_assoc.
Qed.

End IncludesFacts.

(** ** The model on concrete inputs *)

Module Examples.
Import JsString Regex Format Json Types Runtime Client ChatWidget.

Example trim_strips_both_ends : trim "  a b  " = "a b".
Proof. reflexivity. Qed.

Example trim_of_white_space : trim (String "009" (String "160" " ")) = EmptyString.
Proof. reflexivity. Qed.

Example toLowerCase_ascii : toLowerCase "Hello WORLD" = "hello world".
Proof. reflexivity. Qed.

Example includes_is_substring : includes "hi" "Which one?" = true.
Proof. reflexivity. Qed.

(** [hi] is found inside other words: the mock greets on [which]. *)
Example mock_greets_on_which :
  fst (mockChatWithAgent "Which house?" (initial 0)) = inr (said greeting).
Proof. reflexivity. Qed.

Example mock_default :
  fst (mockChatWithAgent "Any condo?" (initial 0)) = inr (said default_reply).
Proof. reflexivity. Qed.

Example first_replacement :
  markdownContent "see [here](http://x/y)"
  = "see " ++ anchor "here" "http://x/y".
Proof. reflexivity. Qed.

Example links_found :
  links "a [b](c) d [e](f)" = [("b", "c"); ("e", "f")].
Proof. reflexivity. Qed.

(** A url with a double quote in it is cut at the quote. *)
Example url_with_quote_is_cut :
  finalContent ("[t](u " ++ dq ++ "title" ++ dq ++ ")") = "[t](u )".
Proof. reflexivity. Qed.

(** An opening anchor tag in the content swallows the link after it. *)
Example open_tag_swallows_link :
  finalContent ("<a href=" ++ dq ++ "x" ++ dq ++ " [t](u)") = "[t](x)".
Proof. reflexivity. Qed.

(** An anchor in the content is rewritten to a markdown link. *)
Example anchor_becomes_markdown :
  finalContent ("<a href=" ++ dq ++ "http://x" ++ dq ++ ">docs</a>")
  = "[docs](http://x)".
Proof. reflexivity. Qed.

(** One turn of a session: mount, effect, typing, send, reply. *)
Example one_turn :
  let u := "123e4567-e89b-42d3-a456-426614174000" in
  let reply := Resolved {| status := 200; statusText := "OK";
                           payload := Some (JObject [("response", JString "Hi!")]) |} in
  let w := run (initial 0)
               [Effect u; Change " condos "; Send "m1" 1; Settle reply "m2" 2] in
  messages w = [welcome 0; userMessage "m1" 1 " condos ";
                botMessage "m2" 2 (json (JString "Hi!"))]
  /\ requests w = [inquiry_request " condos " (Some u)]
  /\ inputValue w = EmptyString /\ isLoading w = false /\ awaiting w = 0
  /\ toasts w = [].
Proof. repeat split. Qed.

(** The same turn when the server answers 500. *)
Example one_failed_turn :
  let u := "123e4567-e89b-42d3-a456-426614174000" in
  let reply := Resolved {| status := 500; statusText := "Internal Server Error";
                           payload := None |} in
  let w := run (initial 0)
               [Effect u; Change "condos"; Send "m1" 1; Settle reply "m2" 2] in
  messages w = [welcome 0; userMessage "m1" 1 "condos"]
  /\ toasts w = [error_toast]
  /\ console w = [console_error_entry "API Error:"
                    (Error "HTTP error! status: 500")]
  /\ isLoading w = false.
Proof. repeat split. Qed.

(** [handleSendMessage] in one piece agrees with the two events. *)
Example whole_call :
  let w := run (initial 0) [Effect "123e4567-e89b-42d3-a456-426614174000";
                            Change "condos"] in
  let reply := Rejected (TypeError "Failed to fetch") in
  let t := {| user_uuid := "m1"; user_time := 1; reply := reply;
              bot_uuid := "m2"; bot_time := 2 |} in
  view (snd (handleSendMessage t w))
  = view (run w [Send "m1" 1; Settle reply "m2" 2]).
Proof. reflexivity. Qed.

End Examples.

(** ** The orchestrator on concrete turns *)

Module BackendExamples.
Import Backend.
Local Open Scope list_scope.

(** A miss, and the agent finds something. *)
Example miss_with_evidence :
  let o := turn sample_intent (1 # 2) (Some [sample_evidence]) in
  path o = [RECEIVED; CLASSIFIED; RETRIEVED; WEB_RESEARCHED;
            SYNTHESIZED; PERSISTED; DONE]
  /\ evidence_used (response o) = {| retrieval := false; web_search := true |}
  /\ states_limitation (response o) = false.
Proof. repeat split. Qed.

(** A miss, and the agent returns zero evidence. *)
Example miss_with_zero_evidence :
  let o := turn sample_intent (1 # 2) (Some []) in
  In WEB_RESEARCHED (path o)
  /\ evidence_used (response o) = {| retrieval := false; web_search := false |}
  /\ states_limitation (response o) = true.
Proof. split; [simpl; tauto|]. split; reflexivity. Qed.

(** A miss, and the agent is unavailable. *)
Example miss_with_research_unavailable :
  let o := turn sample_intent (1 # 2) None in
  In WEB_RESEARCHED (path o)
  /\ evidence_used (response o) = {| retrieval := false; web_search := false |}
  /\ states_limitation (response o) = true.
Proof. split; [simpl; tauto|]. split; reflexivity. Qed.

(** A score equal to the threshold is a hit: research is skipped,
    whatever the agent would have returned. *)
Example hit_skips_research :
  let o := turn sample_intent (3 # 4) (Some [sample_evidence]) in
  path o = [RECEIVED; CLASSIFIED; RETRIEVED; SKIPPED;
            SYNTHESIZED; PERSISTED; DONE]
  /\ web_evidence o = []
  /\ evidence_used (response o) = {| retrieval := true; web_search := false |}
  /\ cited_properties (response o) = ["p1"%string].
Proof. repeat split. Qed.

(** A hit whose intent has an out-of-schema need is researched. *)
Example hit_out_of_schema_is_researched :
  let o := turn off_schema (9 # 10) (Some [sample_evidence]) in
  path o = [RECEIVED; CLASSIFIED; RETRIEVED; WEB_RESEARCHED;
            SYNTHESIZED; PERSISTED; DONE]
  /\ evidence_used (response o) = {| retrieval := true; web_search := true |}.
Proof. repeat split. Qed.

End BackendExamples.

(** * The claims *)

(** ** The widget: requests, decoding, transcript, thread id, the guard *)

Module WidgetClaims.
Import JsString JsStringFacts Json Types Runtime Client ChatWidget
       ClientFacts WidgetFacts.
Local Open Scope list_scope.

Lemma blank_trimStart s : blank s = true -> trimStart s = EmptyString.
Proof.
  induction s as [|c s IH]; simpl; [reflexivity|].
  intros [Hc Hs]%andb_true_iff. rewrite Hc. now apply IH.
Qed.

Lemma blank_trim s : blank s = true -> trim s = EmptyString.
Proof. intros H. unfold trim. now rewrite (blank_trimStart _ H). Qed.

Lemma chatWithAgent_requests message reply w :
  requests (snd (chatWithAgent message reply w))
  = requests w ++ [chat_request message].
Proof.
  pose proof (chatWithAgent_cases message reply w) as H.
  destruct reply as [e|r]; [now rewrite H|].
  destruct (ok r).
  - destruct (payload r) as [d|].
    + destruct (get "response" d); [now rewrite H|].
      destruct H as [e ->]. reflexivity.
    + destruct H as [e ->]. reflexivity.
  - destruct H as [e ->]. reflexivity.
Qed.

(** C1, as stated, fails on the client module: the request
    [chatWithAgent] sends for the message [hello] goes to [/chat] and its
    body has neither a [query] nor a [thread_id]. *)
Lemma chatWithAgent_request_lacks_query_and_thread_id :
  let w := snd (chatWithAgent "hello" (Rejected (TypeError "Failed to fetch"))
                  (initial 0)) in
  requests w = [chat_request "hello"]
  /\ url (chat_request "hello") = "http://localhost:8000/chat"
  /\ body (chat_request "hello") = JObject [("message", JString "hello")]
  /\ get "query" (body (chat_request "hello")) = Some undefined
  /\ get "thread_id" (body (chat_request "hello")) = Some undefined
  /\ ~ (exists query thread, carries (chat_request "hello") query thread).
Proof.
  repeat split. intros (query & thread & H & _). discriminate H.
Qed.

(** C1, amended: every call of [handleSendMessage] either returns at its
    guard without a request, or sends exactly one request, to the inquiry
    endpoint, whose body holds the raw input text under [query] and the
    thread id under [thread_id]; so every request of a session of the
    widget meets the contract.  [chatWithAgent] sends one request to
    [/chat] whose body is [{ message }]. *)
Theorem send_request_carries_query_and_thread_id w uuid now :
  (requests (step w (Send uuid now)) = requests w
   \/ exists t r,
        threadId w = Some t
        /\ requests (step w (Send uuid now)) = requests w ++ [r]
        /\ url r = inquiry_url
        /\ carries r (inputValue w) t)
  /\ (forall start evs r,
        In r (requests (run (initial start) evs)) -> meets_contract r)
  /\ (forall message reply w0,
        requests (snd (chatWithAgent message reply w0))
        = requests w0 ++ [chat_request message]
        /\ url (chat_request message) = (API_URL ++ "/chat")%string
        /\ body (chat_request message) = JObject [("message", JString message)]).
Proof.
  split.
  - destruct (negb (truthy (trim (inputValue w))) || noThread (threadId w))
      eqn:G.
    + left. now rewrite step_send_guard.
    + right. rewrite step_send by exact G. simpl.
      apply orb_false_iff in G as [_ G].
      destruct (threadId w) as [t|]; [|discriminate].
      exists t, (inquiry_request (inputValue w) (Some t)).
      repeat split.
  - split.
    + intros start evs. apply meets_contract_run. intros r [].
    + intros message reply w0. repeat split. apply chatWithAgent_requests.
Qed.

(** C3, as stated, fails on the reading of the optional fields: two ok
    replies with the same [response], one with [relevant_properties] and
    [additional_info.web_search_conducted] and one without, leave the
    widget in the same visible state: the decoding consumes neither
    field. *)
Lemma optional_reply_fields_are_not_read :
  let rich := JObject [("response", JString "Two condos match.");
                       ("relevant_properties",
                        JArray [JObject [("id", JString "p1")]]);
                       ("additional_info",
                        JObject [("web_search_conducted", JBool true)])] in
  let bare := JObject [("response", JString "Two condos match.")] in
  let reply d := Resolved {| status := 200; statusText := "OK";
                             payload := Some d |} in
  view (snd (handleSendMessage_resume (reply rich) "u" 1 (initial 0)))
  = view (snd (handleSendMessage_resume (reply bare) "u" 1 (initial 0)))
  /\ ~ consumes "relevant_properties"
  /\ ~ consumes "additional_info".
Proof.
  split; [reflexivity|].
  split; intros H%consumes_only_response; discriminate H.
Qed.

(** C3, amended: for every reply with an ok status and a JSON body
    [data] on which [data.response] can be read, the assistant message
    appended has exactly that value as its content; the interface types
    [response] as a required string and the optional fields under the
    names [relevant_properties] and [additional_info.web_search_conducted];
    of all properties of the body the decoding consumes [response] and
    nothing else. *)
Theorem reply_text_is_response_field r data v uuid now w :
  ok r = true -> payload r = Some data -> get "response" data = Some v ->
  messages (snd (handleSendMessage_resume (Resolved r) uuid now w))
  = messages w ++ [{| id := uuid; content := v; role := assistant;
                      timestamp := now |}]
  /\ member "response" InquiryResponse = Some (false, TString)
  /\ member "relevant_properties" InquiryResponse
     = Some (true, TArray Property)
  /\ (exists t, member "additional_info" InquiryResponse = Some (true, t)
                /\ member "web_search_conducted" t = Some (true, TBoolean))
  /\ (forall k, consumes k <-> k = "response"%string).
Proof.
  intros Hok Hp Hg. split; [|split; [|split; [|split]]].
  - destruct (resume_spec (Resolved r) uuid now w) as [logs ->].
    unfold response_of. now rewrite Hok, Hp, Hg.
  - reflexivity.
  - reflexivity.
  - eexists. split; reflexivity.
  - intros k. split; [apply consumes_only_response|].
    intros ->. apply consumes_response.
Qed.

Lemma reply_text_is_response_field_witness :
  let r := {| status := 200; statusText := "OK";
              payload := Some (JObject [("response", JString "Hi there")]) |} in
  ok r = true
  /\ messages (snd (handleSendMessage_resume (Resolved r) "u" 7 (initial 0)))
     = [welcome 0;
        {| id := "u"; content := json (JString "Hi there");
           role := assistant; timestamp := 7 |}].
Proof.
  split; [reflexivity|].
  apply (reply_text_is_response_field
           {| status := 200; statusText := "OK";
              payload := Some (JObject [("response", JString "Hi there")]) |}
           (JObject [("response", JString "Hi there")])
           (json (JString "Hi there")) "u" 7 (initial 0));
    reflexivity.
Defined.

(** C4: the messages list is an append-only log.  Each of the two
    updates of [handleSendMessage] appends exactly one new turn to the
    list it finds: the first half, past the guard, the user turn made of
    the input value; the second half, on a reply it can read, the
    assistant turn made of [data.response]; at the guard and on a failed
    reply the list stays as it is.  Hence every event of the widget
    appends exactly the turn named here or nothing (the effect hook and
    typing never touch the list), over any sequence of events the list
    at the start is a prefix of the list at the end, and a turn once at a
    position stays there unchanged. *)
Theorem transcript_is_append_only w :
  (forall uuid now,
      messages (snd (handleSendMessage_start uuid now w))
      = messages w
        ++ (if negb (blank (inputValue w)) && negb (noThread (threadId w))
            then [userMessage uuid now (inputValue w)]
            else []))
  /\ (forall reply uuid now,
        messages (snd (handleSendMessage_resume reply uuid now w))
        = messages w
          ++ match response_of reply with
             | Some v => [botMessage uuid now v]
             | None => []
             end)
  /\ (forall ev,
        messages (step w ev)
        = messages w
          ++ match ev with
             | Effect _ | Change _ => []
             | Send uuid now =>
                 if negb (blank (inputValue w))
                    && negb (noThread (threadId w))
                 then [userMessage uuid now (inputValue w)]
                 else []
             | Settle reply uuid now =>
                 match awaiting w with
                 | O => []
                 | S _ =>
                     match response_of reply with
                     | Some v => [botMessage uuid now v]
                     | None => []
                     end
                 end
             end)
  /\ (forall ev,
        messages (step w ev) = messages w
        \/ exists m, messages (step w ev) = messages w ++ [m])
  /\ (forall evs,
        exists added, messages (run w evs) = messages w ++ added)
  /\ (forall evs,
        firstn (List.length (messages w)) (messages (run w evs)) = messages w)
  /\ (forall evs n m,
        nth_error (messages w) n = Some m ->
        nth_error (messages (run w evs)) n = Some m).
Proof.
  pose proof (UiFacts.guard_bool (inputValue w) (threadId w)) as G.
  split; [|split; [|split; [|split; [|split; [|split]]]]].
  - intros uuid now.
    destruct (negb (blank (inputValue w)) && negb (noThread (threadId w)));
      simpl in G.
    + now rewrite (start_sends _ _ _ G).
    + rewrite (start_guard _ _ _ G). simpl. now rewrite app_nil_r.
  - intros reply uuid now.
    destruct (resume_spec reply uuid now w) as [logs ->]. simpl.
    destruct (response_of reply); [reflexivity | now rewrite app_nil_r].
  - intros [u|v|u now|reply u now].
    + rewrite step_effect, app_nil_r. now destruct (noThread (threadId w)).
    + rewrite step_change, app_nil_r. reflexivity.
    + destruct (negb (blank (inputValue w)) && negb (noThread (threadId w)));
        simpl in G.
      * now rewrite (step_send _ _ _ G).
      * rewrite (step_send_guard _ _ _ G). now rewrite app_nil_r.
    + destruct (awaiting w) as [|n] eqn:A.
      * rewrite (step_settle_idle _ _ _ _ A). now rewrite app_nil_r.
      * destruct (step_settle w reply u now n A) as [logs ->]. simpl.
        destruct (response_of reply); [reflexivity | now rewrite app_nil_r].
  - intros ev. apply step_messages.
  - intros evs. apply run_messages.
  - intros evs. destruct (run_messages evs w) as [added ->].
    rewrite firstn_app, Nat.sub_diag, firstn_all. simpl. apply app_nil_r.
  - intros evs n m H. destruct (run_messages evs w) as [added ->].
    rewrite nth_error_app1; [exact H|].
    apply nth_error_Some. now rewrite H.
Qed.

(** C5: in a session whose uuids are well formed, the effect hook assigns
    the thread id when it is null, every later event keeps the value, and
    every request sent so far goes to the inquiry endpoint with that one
    value under [thread_id]. *)
Theorem thread_id_is_stable now evs :
  forallb well_formed evs = true ->
  let w := run (initial now) evs in
  (forall uuid, is_uuid uuid = true -> threadId w = None ->
                threadId (step w (Effect uuid)) = Some uuid)
  /\ (forall t, threadId w = Some t ->
        (forall more, threadId (run w more) = Some t)
        /\ forall r, In r (requests w) ->
                     get "thread_id" (body r) = Some (json (JString t)))
  /\ (threadId w = None -> requests w = []).
Proof.
  intros Hwf w.
  pose proof (thread_inv_run evs (initial now) Hwf (thread_inv_initial now))
    as Inv.
  fold w in Inv. unfold thread_inv in Inv. split; [|split].
  - intros uuid _ T. rewrite step_effect, T. reflexivity.
  - intros t T. rewrite T in Inv. destruct Inv as [Ne Inv]. split.
    + intros more. now apply threadId_run.
    + intros r Hr. destruct (Inv r Hr) as [_ [query [_ C]]]. exact C.
  - intros T. now rewrite T in Inv.
Qed.

Lemma thread_id_is_stable_witness :
  let u := "123e4567-e89b-42d3-a456-426614174000"%string in
  let evs := [Effect u; Change "condos in Bangsar South";
              Send "123e4567-e89b-42d3-a456-426614174001" 5;
              Effect "123e4567-e89b-42d3-a456-426614174002"] in
  forallb well_formed evs = true
  /\ threadId (run (initial 0) evs) = Some u
  /\ forall r, In r (requests (run (initial 0) evs)) ->
               get "thread_id" (body r) = Some (json (JString u)).
Proof.
  split; [reflexivity|].
  split; [reflexivity|].
  apply (thread_id_is_stable 0
           [Effect "123e4567-e89b-42d3-a456-426614174000";
            Change "condos in Bangsar South";
            Send "123e4567-e89b-42d3-a456-426614174001" 5;
            Effect "123e4567-e89b-42d3-a456-426614174002"]);
    reflexivity.
Defined.

(** C8: when the input value is empty or all white space, or no thread id
    is assigned yet, [handleSendMessage] returns at once and the whole
    world, the widget state and the requests sent, toasts and console
    included, is as before; with such an input the send button is
    disabled as well. *)
Theorem blank_input_or_no_thread_is_a_no_op t w :
  blank (inputValue w) = true \/ threadId w = None ->
  handleSendMessage t w = (inr tt, w)
  /\ step w (Send (user_uuid t) (user_time t)) = w
  /\ (blank (inputValue w) = true -> sendDisabled w = true).
Proof.
  intros H.
  assert (negb (truthy (trim (inputValue w))) || noThread (threadId w) = true)
    as G.
  { destruct H as [H| ->].
    - now rewrite (blank_trim _ H).
    - apply orb_true_r. }
  split; [|split].
  - unfold handleSendMessage, bind. now rewrite (start_guard _ _ _ G).
  - now apply step_send_guard.
  - intros B. unfold sendDisabled. rewrite (blank_trim _ B).
    apply orb_true_r.
Qed.

Lemma blank_input_or_no_thread_is_a_no_op_witness :
  let t := {| user_uuid := "u1"; user_time := 1;
              reply := Rejected (TypeError "Failed to fetch");
              bot_uuid := "u2"; bot_time := 2 |} in
  let w := step (step (initial 0) (Effect "123e4567-e89b-42d3-a456-426614174000"))
                (Change "   ") in
  blank (inputValue w) = true
  /\ handleSendMessage t w = (inr tt, w).
Proof.
  split; [reflexivity|].
  apply (blank_input_or_no_thread_is_a_no_op
           {| user_uuid := "u1"; user_time := 1;
              reply := Rejected (TypeError "Failed to fetch");
              bot_uuid := "u2"; bot_time := 2 |}
           (step (step (initial 0)
                       (Effect "123e4567-e89b-42d3-a456-426614174000"))
                 (Change "   "))).
  left. reflexivity.
Defined.

End WidgetClaims.

(** ** The API client: failures, the mock *)

Module ClientClaims.
Import JsString JsStringFacts Json Types Runtime Client ChatWidget
       ClientFacts WidgetFacts.
Local Open Scope list_scope.

(** C2, as stated, fails on its equivalence: a fetch that succeeds with
    status 200 but whose body is not JSON makes [response.json()] throw,
    and [chatWithAgent] returns the fallback with [success = false]. *)
Lemma chatWithAgent_ok_status_without_success :
  let r := {| status := 200; statusText := "OK"; payload := None |} in
  ok r = true
  /\ fst (chatWithAgent "hello" (Resolved r) (initial 0))
     = inr {| message := json (JString fallback); success := false |}.
Proof. split; reflexivity. Qed.

(** C2, amended: [chatWithAgent] never throws.  It returns
    [success = true], with [data.response] as the message, exactly when
    the fetch resolved with an ok status and a JSON body on which
    [response] can be read (a body that is not null); in every other case
    (rejected fetch, status not ok, body not JSON, body null) it returns
    [success = false] with the fixed fallback text and only logs the
    error.  In these same cases [handleSendMessage] shows the fixed error
    toast, appends no message and lowers the loading flag. *)
Theorem chatWithAgent_never_throws message reply w :
  exists a w',
    chatWithAgent message reply w = (inr a, w')
    /\ (success a = true <->
        exists r data v,
          reply = Resolved r /\ ok r = true /\ payload r = Some data
          /\ get "response" data = Some v)
    /\ match response_of reply with
       | Some v =>
           a = {| message := v; success := true |}
           /\ console w' = console w
       | None =>
           a = {| message := json (JString fallback); success := false |}
           /\ (exists e,
                  console w'
                  = console w
                      ++ [console_error_entry "Error chatting with agent:" e])
           /\ forall uuid now w0,
               exists w1,
                 handleSendMessage_resume reply uuid now w0 = (inr tt, w1)
                 /\ toasts w1 = toasts w0 ++ [error_toast]
                 /\ messages w1 = messages w0
                 /\ isLoading w1 = false
       end.
Proof.
  assert (forall uuid now w0,
             response_of reply = None ->
             exists w1,
               handleSendMessage_resume reply uuid now w0 = (inr tt, w1)
               /\ toasts w1 = toasts w0 ++ [error_toast]
               /\ messages w1 = messages w0
               /\ isLoading w1 = false) as Widget.
  { intros uuid now w0 E.
    destruct (resume_spec reply uuid now w0) as [logs ->].
    eexists. split; [reflexivity|]. simpl. now rewrite E. }
  pose proof (chatWithAgent_cases message reply w) as H.
  destruct reply as [e|r].
  - do 2 eexists. split; [exact H|]. split.
    + split; [discriminate|]. intros (r & d & v & E & _). discriminate E.
    + simpl. split; [reflexivity|]. split; [now exists e|].
      intros; now apply Widget.
  - unfold response_of in *. destruct (ok r) eqn:Hok.
    + destruct (payload r) as [d|] eqn:Hp.
      * destruct (get "response" d) as [v|] eqn:Hg.
        -- do 2 eexists. split; [exact H|]. split; [|now split].
           split; [|reflexivity]. intros _. now exists r, d, v.
        -- destruct H as [e H]. do 2 eexists. split; [exact H|]. split.
           ++ split; [discriminate|].
              intros (r' & d' & v & [= <-] & _ & Hp' & Hg').
              congruence.
           ++ split; [reflexivity|]. split; [now exists e|].
intros; now apply Widget.
      * destruct H as [e H]. do 2 eexists. split; [exact H|]. split.
        -- split; [discriminate|].
           intros (r' & d' & v & [= <-] & _ & Hp' & _). congruence.
        -- split; [reflexivity|]. split; [now exists e|].
intros; now apply Widget.
    + destruct H as [e H]. do 2 eexists. split; [exact H|]. split.
      * split; [discriminate|].
        intros (r' & d' & v & [= <-] & Hok' & _). congruence.
      * split; [reflexivity|]. split; [now exists e|].
intros; now apply Widget.
Qed.

(** C10: [mockChatWithAgent] returns for every message, without touching
    the world, with [success = true] and the reply of the first keyword
    group, in the order hello/hi, property/house/apartment,
    price/cost/budget, location/area/where, one of whose keywords occurs
    in the lower-cased message, the default reply when none does; a
    message that contains hello gets the greeting, also when it contains
    property. *)
Theorem mock_reply_is_first_keyword_group message w :
  mockChatWithAgent message w
  = (inr {| message := json (JString
              (first_match keyword_groups (toLowerCase message)));
            success := true |}, w)
  /\ (includes "hello" message = true ->
      includes "property" message = true ->
      mockChatWithAgent message w
      = (inr {| message := json (JString greeting); success := true |}, w)).
Proof.
  split; [apply mock_first_match|].
  intros H _. rewrite mock_first_match.
  apply (includes_lower "hello") in H.
  unfold keyword_groups. cbn [first_match existsb].
  change (toLowerCase "hello") with "hello"%string in H.
  now rewrite H.
Qed.

Lemma mock_reply_is_first_keyword_group_witness :
  includes "hello" "Hello, any property near KLCC? hello" = true
  /\ includes "property" "Hello, any property near KLCC? hello" = true
  /\ mockChatWithAgent "Hello, any property near KLCC? hello" (initial 0)
     = (inr {| message := json (JString greeting); success := true |},
        initial 0).
Proof.
  split; [reflexivity|]. split; [reflexivity|].
  apply (mock_reply_is_first_keyword_group
           "Hello, any property near KLCC? hello" (initial 0));
    reflexivity.
Defined.

End ClientClaims.

(** ** Link rewriting *)

Module FormatClaims.
Import JsString JsStringFacts Regex RegexFacts Format FormatFacts.

(** C9, as stated, fails on a link whose text contains [<]: the content
    is one well-formed markdown link and holds no anchor tag, the first
    replacement turns it into an anchor, and the second regex, whose text
    group excludes [<], does not turn it back. *)
Lemma link_text_with_less_than_is_not_restored :
  let content := "[1 < 2](http://x)" in
  links content = [("1 < 2", "http://x")]
  /\ hasAnchor content = false
  /\ finalContent content = anchor "1 < 2" "http://x"
  /\ finalContent content <> content.
Proof. repeat split. discriminate. Qed.

(** C9, amended: for every content that holds no opening anchor tag ([<a]
    followed by white space) and in which every markdown link
    [[text](url)] has no [<] in its text and no double quote in its url,
    the two replacements compose to the identity: the string given to the
    markdown renderer is the content. *)
Theorem link_rewriting_round_trip content :
  hasAnchor content = false ->
  forallb plainLink (links content) = true ->
  finalContent content = content.
Proof.
  intros H1 H2.
  now apply (finalContent_fixed (String.length content)).
Qed.

Lemma link_rewriting_round_trip_witness :
  let content := "x < y, see [the docs](http://x/y?a=1) and <abbr>[b](c)." in
  hasAnchor content = false
  /\ forallb plainLink (links content) = true
  /\ finalContent content = content.
Proof.
  split; [reflexivity|]. split; [reflexivity|].
  apply (link_rewriting_round_trip
           "x < y, see [the docs](http://x/y?a=1) and <abbr>[b](c).");
    reflexivity.
Defined.

End FormatClaims.

(** ** Retrieval and escalation *)

Module BackendClaims.
Import JsString JsStringFacts Backend BackendFacts.
Local Open Scope list_scope.

(** C6: for every retrieval, [hit] is true exactly when a best candidate
    among those that pass the filters (the top-1 filtered candidate)
    scores at least the threshold; a top-1 score equal to the threshold
    is a hit, one strictly below it a miss. *)
Theorem hit_iff_top1_clears_threshold threshold i k corpus :
  (hit (retrieve threshold i k corpus) = true <->
   exists c, best (filter (passes i) corpus) c /\ (threshold <= snd c)%Q)
  /\ (forall c,
        top1 i corpus = Some c ->
        best (filter (passes i) corpus) c
        /\ ((snd c == threshold)%Q ->
            hit (retrieve threshold i k corpus) = true)
        /\ ((snd c < threshold)%Q ->
            hit (retrieve threshold i k corpus) = false)).
Proof.
  unfold retrieve, top1. simpl.
  destruct (rank (filter (passes i) corpus)) as [|h rest] eqn:E; simpl.
  - split; [|intros c [=]].
    split; [discriminate|]. intros (c & [Hc _] & _).
    exfalso. now apply (rank_nonempty _ _ Hc).
  - pose proof (rank_head_best _ _ _ E) as B. split.
    + rewrite Qle_bool_iff. split.
      * intros H. now exists h.
      * intros (c & [Hc _] & H). eapply Qle_trans; [exact H|].
        now apply B.
    + intros c [= <-]. split; [exact B|]. split.
      * intros Q. apply Qle_bool_iff. rewrite Q. apply Qle_refl.
      * intros Q. destruct (Qle_bool threshold (snd h)) eqn:L; [|reflexivity].
        apply Qle_bool_iff in L. exfalso. exact (Qlt_not_le _ _ Q L).
Qed.

Section Escalation.
Variable relevance_threshold : Q.
Variable top_k : nat.
Variable classify : string -> option QueryIntent -> option QueryIntent.
Variable search : QueryIntent -> list candidate.
Variable research : QueryIntent -> RetrievalResult -> option (list WebEvidence).
Variable complete : string -> string.

(** C7: take a turn whose query classifies to the intent [i], and let
    [r] be what the retriever returns for [i]; the turn records [i] and
    [r].  The web research step is taken exactly when [hit r = false]
    or [i] flags an out-of-schema need, and it is skipped otherwise.
    When [hit r = false]: if the Web Research Agent, asked with [i] and
    [r], returns evidence that is not empty, the turn carries that
    evidence and the response reports [evidence_used.web_search =
    true]; if the agent returns zero evidence, or is unavailable, the
    response reports [false] and states the limitation.  When
    [hit r = true] and [i] has no out-of-schema need, the step is
    skipped, the agent's answer plays no part and the response reports
    [evidence_used.web_search = false]. *)
Theorem miss_escalates_to_web_research query prior i :
  classify query prior = Some i ->
  let r := retrieve relevance_threshold i top_k (search i) in
  let o := orchestrate relevance_threshold top_k classify search research
             complete query prior in
  intent o = Some i /\ retrieved o = Some r
  /\ (In WEB_RESEARCHED (path o)
      <-> hit r = false \/ out_of_schema i = true)
  /\ (In SKIPPED (path o)
      <-> hit r = true /\ out_of_schema i = false)
  /\ (hit r = false ->
      In WEB_RESEARCHED (path o) /\ ~ In SKIPPED (path o)
      /\ (forall e ev,
            research i r = Some (e :: ev) ->
            web_evidence o = e :: ev
            /\ web_search (evidence_used (response o)) = true)
      /\ (research i r = Some [] \/ research i r = None ->
          web_evidence o = []
          /\ web_search (evidence_used (response o)) = false
          /\ states_limitation (response o) = true))
  /\ (hit r = true -> out_of_schema i = false ->
      In SKIPPED (path o) /\ ~ In WEB_RESEARCHED (path o)
      /\ web_evidence o = []
      /\ web_search (evidence_used (response o)) = false).
Proof.
  intros C r o. subst o. unfold orchestrate. rewrite C. fold r.
  cbv zeta.
  destruct (hit r) eqn:H; destruct (out_of_schema i) eqn:O;
    cbn [negb orb path intent retrieved web_evidence response].
  - (* a hit, with an out-of-schema need: researched *)
    split; [reflexivity|]. split; [reflexivity|].
    split; [split; [now right | simpl; tauto]|].
    split; [split; [simpl; intuition discriminate | intros [_ [=]]]|].
    split; [discriminate|]. discriminate.
  - (* a hit and nothing out of schema: skipped *)
    split; [reflexivity|]. split; [reflexivity|].
    split; [split; [simpl; intuition discriminate
                   | intros [[=]|[=]]]|].
    split; [split; [now split | simpl; tauto]|].
    split; [discriminate|]. intros _ _.
    split; [simpl; tauto|].
    split; [simpl; intuition discriminate|]. split; reflexivity.
  - (* a miss *)
    split; [reflexivity|]. split; [reflexivity|].
    split; [split; [now left | simpl; tauto]|].
    split; [split; [simpl; intuition discriminate | intros [[=] _]]|].
    split; [|discriminate]. intros _.
    split; [simpl; tauto|].
    split; [simpl; intuition discriminate|]. split.
    + intros e ev E. rewrite E. split; reflexivity.
    + intros E.
      assert (match research i r with Some ev => ev | None => [] end = [])
        as ->.
      { destruct E as [-> | ->]; reflexivity. }
      split; [reflexivity|]. split; [reflexivity|].
      unfold states_limitation. simpl. apply notice_occurs.
  - (* a miss *)
    split; [reflexivity|]. split; [reflexivity|].
    split; [split; [now left | simpl; tauto]|].
    split; [split; [simpl; intuition discriminate | intros [[=] _]]|].
    split; [|discriminate]. intros _.
    split; [simpl; tauto|].
    split; [simpl; intuition discriminate|]. split.
    + intros e ev E. rewrite E. split; reflexivity.
    + intros E.
      assert (match research i r with Some ev => ev | None => [] end = [])
        as ->.
      { destruct E as [-> | ->]; reflexivity. }
      split; [reflexivity|]. split; [reflexivity|].
      unfold states_limitation. simpl. apply notice_occurs.
Qed.
End Escalation.

Lemma miss_escalates_to_web_research_witness :
  let classify := fun (_ : string) (_ : option QueryIntent) =>
                    Some sample_intent in
  let search := fun _ : QueryIntent => [(sample_property, (1 # 2)%Q)] in
  let research := fun (_ : QueryIntent) (_ : RetrievalResult) =>
                    Some [sample_evidence] in
  let o := orchestrate (3 # 4) 3 classify search research (fun s => s)
             "is this neighborhood safe?" None in
  classify "is this neighborhood safe?"%string None = Some sample_intent
  /\ retrieved o
     = Some {| matches := [(sample_property, (1 # 2)%Q)]; hit := false |}
  /\ In WEB_RESEARCHED (path o)
  /\ web_evidence o = [sample_evidence]
  /\ web_search (evidence_used (response o)) = true.
Proof.
  split; [reflexivity|].
  destruct (miss_escalates_to_web_research (3 # 4) 3
              (fun _ _ => Some sample_intent)
              (fun _ => [(sample_property, (1 # 2)%Q)])
              (fun _ _ => Some [sample_evidence]) (fun s => s)
              "is this neighborhood safe?" None sample_intent eq_refl)
    as (_ & R & _ & _ & M & _).
  split; [exact R|].
  destruct (M eq_refl) as (P & _ & E & _). split; [exact P|].
  exact (E sample_evidence [] eq_refl).
Defined.

End BackendClaims.

(** * Further properties of the code *)

(** ** Sessions of the widget *)

Module SessionProperties.
Import JsString JsStringFacts Json Types Runtime Client ChatWidget
       ClientFacts WidgetFacts Ui UiFacts.
Local Open Scope list_scope.

(** Without the disabled controls two sends can overlap and two replies
    end up next to each other. *)
Example overlapping_sends_double_reply :
  let reply := Resolved {| status := 200; statusText := "OK";
                           payload := Some (JObject [("response", JString "ok")]) |} in
  let w := run (initial 0)
               [Effect "123e4567-e89b-42d3-a456-426614174000";
                Change "a"; Send "m1" 1; Change "b"; Send "m2" 2;
                Settle reply "m3" 3; Settle reply "m4" 4] in
  no_double_reply (messages w) = false /\ isLoading w = false.
Proof. split; reflexivity. Qed.

(** X1: in every session of the widget driven through its controls (the
    input and the button are disabled while loading) at most one request
    is in flight: one while [isLoading] holds, none otherwise; and while
    it is loading the last turn of the transcript is the user's. *)
Theorem one_request_in_flight now actions :
  let w := session (initial now) actions in
  awaiting w = (if isLoading w then 1 else 0)
  /\ (isLoading w = true -> last_role (messages w) = Some user).
Proof.
  intros w.
  destruct (session_keeps in_flight in_flight_step actions (initial now)
              (in_flight_initial now)) as (A & _ & _ & L).
  split; assumption.
Qed.

(** X2: in every session driven through the controls no two assistant
    turns stand next to each other: every reply directly follows a user
    turn. *)
Theorem replies_follow_questions now actions :
  no_double_reply (messages (session (initial now) actions)) = true.
Proof.
  destruct (session_keeps in_flight in_flight_step actions (initial now)
              (in_flight_initial now)) as (_ & _ & D & _).
  exact D.
Qed.

(** X3: after any sequence of events the texts sent as [query], in
    order, are the contents of the user turns of the transcript, and
    when the component renders they are the children of the user
    paragraphs on screen: what the user sees as sent is what was sent,
    untrimmed and without link rewriting. *)
Theorem sent_is_shown now evs :
  let w := run (initial now) evs in
  queries (requests w) = user_texts (messages w)
  /\ forall screen,
       render w = inr screen -> paragraphs (bubbles screen) = queries (requests w).
Proof.
  intros w.
  assert (queries (requests w) = user_texts (messages w)) as H.
  { apply (run_keeps (fun w => queries (requests w) = user_texts (messages w))
             sent_is_said_step evs (initial now)).
    reflexivity. }
  split; [exact H|].
  intros screen R. unfold render in R.
  destruct (renderMessages (messages w)) as [e|bs] eqn:E; [discriminate|].
  injection R as <-. simpl. rewrite H. now apply renderMessages_paragraphs.
Qed.

(** X4: after any sequence of events every request sent is accounted for
    exactly once: the requests are as many as the assistant turns after
    the welcome, the error toasts and the fetches still awaited
    together. *)
Theorem every_request_is_answered_once now evs :
  let w := run (initial now) evs in
  List.length (requests w) + 1
  = assistant_turns (messages w) + List.length (toasts w) + awaiting w.
Proof.
  intros w.
  apply (run_keeps settled settled_step evs (initial now)). reflexivity.
Qed.

(** X5: [handleSendMessage] passes its guard exactly when the input is
    not blank and a non-empty thread id is assigned; it then appends the
    user turn with the raw input, clears the input, raises the loading
    flag and sends one request; otherwise nothing changes. *)
Theorem send_passes_guard_iff uuid now w :
  handleSendMessage_start uuid now w
  = if negb (blank (inputValue w)) && negb (noThread (threadId w))
    then (inr true,
          {| messages := messages w ++ [userMessage uuid now (inputValue w)];
             inputValue := EmptyString;
             isLoading := true;
             threadId := threadId w;
             awaiting := awaiting w;
             requests := requests w
                           ++ [inquiry_request (inputValue w) (threadId w)];
             toasts := toasts w;
             console := console w |})
    else (inr false, w).
Proof.
  pose proof (guard_bool (inputValue w) (threadId w)) as G.
  destruct (negb (blank (inputValue w)) && negb (noThread (threadId w))).
  - now apply start_sends.
  - now apply start_guard.
Qed.

(** X6: one whole call of [handleSendMessage] with an input that is not
    blank and a thread id never throws and ends with the loading flag
    down and the input empty; the transcript gains the user turn and,
    when the reply can be read, the assistant turn; otherwise one error
    toast is shown. *)
Theorem one_call_of_handleSendMessage t w :
  blank (inputValue w) = false -> noThread (threadId w) = false ->
  exists logs,
    handleSendMessage t w
    = (inr tt,
       {| messages := (messages w
                         ++ [userMessage (user_uuid t) (user_time t) (inputValue w)])
                      ++ match response_of (reply t) with
                         | Some v => [botMessage (bot_uuid t) (bot_time t) v]
                         | None => []
                         end;
          inputValue := EmptyString;
          isLoading := false;
          threadId := threadId w;
          awaiting := awaiting w;
          requests := requests w
                        ++ [inquiry_request (inputValue w) (threadId w)];
          toasts := match response_of (reply t) with
                    | Some _ => toasts w
                    | None => toasts w ++ [error_toast]
                    end;
          console := console w ++ logs |}).
Proof.
  intros B T. unfold handleSendMessage, bind.
  rewrite start_past_guard by (now rewrite B, T).
  match goal with
  | |- context [handleSendMessage_resume ?r ?u ?n ?x] =>
      destruct (resume_spec r u n x) as [logs ->]
  end.
  exists logs. simpl.
  destruct (response_of (reply t)); [reflexivity|].
  now rewrite app_nil_r.
Qed.

Lemma one_call_of_handleSendMessage_witness :
  let w := run (initial 0) [Effect "123e4567-e89b-42d3-a456-426614174000";
                            Change " condos? "] in
  let t := {| user_uuid := "m1"; user_time := 1;
              reply := Resolved {| status := 503;
                                   statusText := "Service Unavailable";
                                   payload := None |};
              bot_uuid := "m2"; bot_time := 2 |} in
  blank (inputValue w) = false
  /\ noThread (threadId w) = false
  /\ exists logs,
       handleSendMessage t w
       = (inr tt,
          {| messages := [welcome 0; userMessage "m1" 1 " condos? "];
             inputValue := EmptyString;
             isLoading := false;
             threadId := Some "123e4567-e89b-42d3-a456-426614174000";
             awaiting := 0;
             requests := [inquiry_request " condos? "
                            (Some "123e4567-e89b-42d3-a456-426614174000")];
             toasts := [error_toast];
             console := logs |}).
Proof.
  split; [reflexivity|]. split; [reflexivity|].
  destruct (one_call_of_handleSendMessage
              {| user_uuid := "m1"; user_time := 1;
                 reply := Resolved {| status := 503;
                                      statusText := "Service Unavailable";
                                      payload := None |};
                 bot_uuid := "m2"; bot_time := 2 |}
              (run (initial 0) [Effect "123e4567-e89b-42d3-a456-426614174000";
                                Change " condos? "])
              eq_refl eq_refl) as [logs H].
  exists logs. exact H.
Defined.

(** X7: in a session driven through the controls in which every reply
    that can be read has a string as its [response], as the interface
    types it, the component renders after every action: [formatMessage]
    never throws. *)
Theorem render_succeeds_on_typed_replies now actions :
  forallb typed_reply actions = true ->
  exists screen, render (session (initial now) actions) = inr screen.
Proof.
  intros T.
  pose proof (replies_are_strings_session actions (initial now) T eq_refl)
    as H.
  apply renderMessages_succeeds in H as [bs H].
  unfold render. rewrite H. eexists. reflexivity.
Qed.

Lemma render_succeeds_on_typed_replies_witness :
  let reply := Resolved {| status := 200; statusText := "OK";
                           payload := Some (JObject
                             [("response", JString "See [River Park](http://x/rp).")]) |} in
  let actions := [Rendered "123e4567-e89b-42d3-a456-426614174000";
                  Typed "condos";
                  KeyDown {| key := "Enter"; shiftKey := false |} "m1" 1;
                  Settled reply "m2" 2] in
  forallb typed_reply actions = true
  /\ exists screen, render (session (initial 0) actions) = inr screen.
Proof.
  split; [reflexivity|].
  apply (render_succeeds_on_typed_replies 0
           [Rendered "123e4567-e89b-42d3-a456-426614174000";
            Typed "condos";
            KeyDown {| key := "Enter"; shiftKey := false |} "m1" 1;
            Settled (Resolved {| status := 200; statusText := "OK";
                                 payload := Some (JObject
                                   [("response",
                                     JString "See [River Park](http://x/rp).")]) |})
                    "m2" 2]).
  reflexivity.
Defined.

(** X8: the component renders exactly when every assistant turn holds a
    string, and throws (a TypeError of [content.replace]) exactly when
    some assistant turn holds anything else; user turns never make it
    throw. *)
Theorem render_throws_iff_reply_is_no_string w :
  ((exists screen, render w = inr screen)
   <-> replies_are_strings (messages w) = true)
  /\ ((exists e, render w = inl e)
      <-> replies_are_strings (messages w) = false).
Proof.
  assert ((exists screen, render w = inr screen)
          <-> replies_are_strings (messages w) = true) as H.
  { rewrite <- renderMessages_succeeds. unfold render. split.
    - intros [screen R].
      destruct (renderMessages (messages w)) as [e|bs];
        [discriminate | now eexists].
    - intros [bs ->]. now eexists. }
  split; [exact H|]. split.
  - intros [e R].
    destruct (replies_are_strings (messages w)); [|reflexivity].
    destruct (proj2 H eq_refl) as [screen R']. congruence.
  - intros F. destruct (render w) as [e|screen] eqn:R; [now exists e|].
    assert (replies_are_strings (messages w) = true) as T
        by (apply H; now exists screen).
    congruence.
Qed.



(** X12: the client module and the widget decode a reply alike:
    [chatWithAgent] returns [success = true] with a message exactly when
    [handleSendMessage] appends an assistant turn with that message as
    content, and [success = false] exactly when it shows the error
    toast. *)
Theorem client_and_widget_decode_alike message reply uuid now w w0 :
  exists a w' w1,
    chatWithAgent message reply w = (inr a, w')
    /\ handleSendMessage_resume reply uuid now w0 = (inr tt, w1)
    /\ if success a
       then messages w1 = messages w0 ++ [botMessage uuid now (Types.message a)]
            /\ toasts w1 = toasts w0
       else messages w1 = messages w0
            /\ toasts w1 = toasts w0 ++ [error_toast].
Proof.
  destruct (resume_spec reply uuid now w0) as [logs ->].
  pose proof (chatWithAgent_cases message reply w) as H.
  unfold response_of.
  destruct reply as [e|r].
  - do 3 eexists. split; [exact H|]. split; [reflexivity|]. now split.
  - destruct (ok r).
    + destruct (payload r) as [d|].
      * destruct (get "response" d) as [v|].
        -- do 3 eexists. split; [exact H|]. split; [reflexivity|]. now split.
        -- destruct H as [e H]. do 3 eexists. split; [exact H|].
           split; [reflexivity|]. now split.
      * destruct H as [e H]. do 3 eexists. split; [exact H|].
        split; [reflexivity|]. now split.
    + destruct H as [e H]. do 3 eexists. split; [exact H|].
      split; [reflexivity|]. now split.
Qed.

End SessionProperties.

(** ** Link rewriting and the mock *)

Module TextProperties.
Import JsString JsStringFacts Regex RegexFacts Format FormatFacts
       Json Types Runtime Client ClientFacts ChatWidget IncludesFacts.

(** X10: an anchor element in a content without [[], after text without
    [<], is rewritten to the markdown link of its text and url, whatever
    further attributes it has, when its url holds no double quote, its
    attributes no [>] and its text no [<]; the text before it is kept
    and the rest is rewritten on its own. *)
Theorem anchor_in_content_becomes_markdown_link pre ws url attrs text post :
  hasChar "<" pre = false ->
  hasChar "[" (pre ++ anchor_tag ws url attrs text ++ post) = false ->
  ws <> EmptyString -> blank ws = true ->
  url <> EmptyString -> hasChar dquote url = false ->
  hasChar ">" attrs = false ->
  text <> EmptyString -> hasChar "<" text = false ->
  finalContent (pre ++ anchor_tag ws url attrs text ++ post)
  = pre ++ markdown url text ++ finalContent post.
Proof.
  intros Hpre Hb Nw Bw Nu Hu Ha Nt Ht.
  assert (hasChar "[" post = false) as Hpost.
  { rewrite !hasChar_app in Hb.
    apply orb_false_iff in Hb as [_ Hb]. now apply orb_false_iff in Hb. }
  unfold finalContent.
  rewrite (markdownContent_no_bracket _ Hb), (markdownContent_no_bracket _ Hpost).
  rewrite (replace_html_anchor_skip _ _ _ Hpre).
  now rewrite (replace_hit _ _ html_anchor_shrinking _ _ _ _
                 (html_anchor_tag ws url attrs text post Nw Bw Nu Hu Ha Nt Ht)).
Qed.

Lemma anchor_in_content_becomes_markdown_link_witness :
  finalContent ("See " ++ anchor_tag " " "http://x/rp"
                            (" class=" ++ dq ++ "ext" ++ dq) "River Park"
                       ++ " today.")
  = "See [River Park](http://x/rp) today.".
Proof.
  apply (anchor_in_content_becomes_markdown_link
           "See " " " "http://x/rp" (" class=" ++ dq ++ "ext" ++ dq)
           "River Park" " today."); try reflexivity; discriminate.
Defined.

(** X11: the mock looks for [hi] anywhere in the lower-cased message, so
    a message that contains a word with [hi] inside it (which, this,
    think) is answered with the greeting, whatever else it asks. *)
Theorem mock_greets_on_hi_inside_a_word word message w :
  includes "hi" (toLowerCase word) = true ->
  includes word message = true ->
  mockChatWithAgent message w
  = (inr {| Types.message := json (JString greeting); success := true |}, w).
Proof.
  intros Hw Hm. rewrite mock_first_match.
  apply includes_lower in Hm.
  pose proof (includes_trans _ _ _ Hw Hm) as H.
  unfold keyword_groups. cbn [first_match existsb].
  rewrite H, orb_true_r. reflexivity.
Qed.

Lemma mock_greets_on_hi_inside_a_word_witness :
  includes "hi" (toLowerCase "Which") = true
  /\ includes "Which" "Which areas have the lowest price?" = true
  /\ mockChatWithAgent "Which areas have the lowest price?" (initial 0)
     = (inr {| Types.message := json (JString greeting); success := true |},
        initial 0).
Proof.
  split; [reflexivity|]. split; [reflexivity|].
  apply (mock_greets_on_hi_inside_a_word
           "Which" "Which areas have the lowest price?" (initial 0));
    reflexivity.
Defined.

End TextProperties.
